(** * hh.ru vacancy loader: a shallow embedding of its ingestion and reports

    The development follows the four source files:
    - [hh_api.py]     the two HTTP calls of class [Hh_Api];
    - [main.py]       [validate_data], [get_vacancies_with_retry],
                      [insert_employers], [insert_vacancies] and the
                      loading block of [main];
    - [db_utils.py]   the schema created by [create_tables];
    - [db_manager.py] the read queries of class [DBManager].

    Python values are a small inductive type, dictionaries are association
    lists, the network is an oracle indexed by the number of requests made so
    far, and the PostgreSQL session is an explicit record threaded through the
    inserting functions.  The records handed to the inserting functions are
    dictionaries, as their annotations [list[dict]] say. *)

From Stdlib Require Import List ZArith QArith String Ascii Bool Lia.
Import ListNotations.
Local Open Scope string_scope.
Local Open Scope Z_scope.

(* ===================================================================== *)
(** ** Python values as decoded from JSON *)
(* ===================================================================== *)

#[warnings="-register-all"]
Inductive pyval : Type :=
| PNone
| PBool (b : bool)
| PInt (n : Z)
| PFloat (q : Q)
| PStr (s : string)
| PList (items : list pyval)
| PDict (entries : list (string * pyval)).

(** A [dict] keeps its entries in order; lookups take the first binding of a
    key. *)
Definition dict : Type := list (string * pyval).

Fixpoint dict_get (d : dict) (key : string) : option pyval :=
  match d with
  | [] => None
  | (k, v) :: rest => if String.eqb k key then Some v else dict_get rest key
  end.

(** [key in d] *)
Definition dict_has (d : dict) (key : string) : bool :=
  match dict_get d key with Some _ => true | None => false end.

(** [d.get(key, default)] *)
Definition get_or (d : dict) (key : string) (default : pyval) : pyval :=
  match dict_get d key with Some v => v | None => default end.

(** [isinstance(v, dict)] *)
Definition isinstance_dict (v : pyval) : bool :=
  match v with PDict _ => true | _ => false end.

(** [del d[key]] for every binding of the key; used to compare a record with
    the same record lacking a field. *)
Fixpoint dict_remove (d : dict) (key : string) : dict :=
  match d with
  | [] => []
  | (k, v) :: rest =>
      if String.eqb k key then dict_remove rest key
      else (k, v) :: dict_remove rest key
  end.

(** [range(n)] *)
Definition range (n : Z) : list Z := map Z.of_nat (seq 0 (Z.to_nat n)).

(* ===================================================================== *)
(** ** Exceptions and log records *)
(* ===================================================================== *)

(** The subclasses of [Exception] that the two API methods can raise. *)
Inductive exn : Type :=
| RequestException      (* requests.get could not complete the call *)
| JSONDecodeError       (* response.json() on a body that is not JSON *)
| AttributeError.       (* .get on a decoded body that is not an object *)

(** One constructor per [logging] call of [main.py]. *)
Inductive log_record : Type :=
| WarnMissingField (field : string) (vacancy_id : pyval)
| WarnRetry (attempt_no retries wait_time : Z)
| ErrFetchVacancies (employer_id : Z) (e : exn)
| ErrInsertEmployer (employer_id : pyval)
| ErrInsertVacancy (vacancy_id : pyval).

(* ===================================================================== *)
(** ** hh_api.py *)
(* ===================================================================== *)

Inductive request : Type :=
| GetEmployer (employer_id : Z)       (* GET /employers/{id} *)
| GetVacancies (employer_id : Z).     (* GET /vacancies?employer_id={id} *)

(** What [requests.get] does: it raises, or it returns a response with a
    status code and a body; [None] is a body that [response.json()] cannot
    decode. *)
Inductive http_result : Type :=
| ConnectionFailed
| Response (status_code : Z) (body : option pyval).

(** The remote side: the answer to the [n]-th request of the process. *)
Definition network : Type := nat -> request -> http_result.

Inductive net_event : Type :=
| Requested (r : request)
| Slept (seconds : Z)
| Logged (l : log_record).

(** The observable history of the fetching phase, oldest event first. *)
Record net_world : Type := mkNet {
  requests_made : nat;
  history : list net_event
}.

Definition net_start : net_world := mkNet 0 [].

Definition record_event (e : net_event) (w : net_world) : net_world :=
  mkNet (requests_made w) (history w ++ [e]).

Definition requests_get (net : network) (r : request) (w : net_world)
  : http_result * net_world :=
  (net (requests_made w) r,
   mkNet (S (requests_made w)) (history w ++ [Requested r])).

Inductive outcome (A : Type) : Type :=
| Returned (a : A)
| Raised (e : exn).
Arguments Returned {A} a.
Arguments Raised {A} e.

(** [response.json()] *)
Definition response_json (body : option pyval) : outcome pyval :=
  match body with
  | Some v => Returned v
  | None => Raised JSONDecodeError
  end.

(** [Hh_Api.get_employer]:
    [response.json() if response.status_code == 200 else {}] *)
Definition get_employer (net : network) (employer_id : Z) (w : net_world)
  : outcome pyval * net_world :=
  match requests_get net (GetEmployer employer_id) w with
  | (ConnectionFailed, w1) => (Raised RequestException, w1)
  | (Response status_code body, w1) =>
      if status_code =? 200 then (response_json body, w1)
      else (Returned (PDict []), w1)
  end.

(** [Hh_Api.get_vacancies]:
    [response.json().get("items", []) if response.status_code == 200 else []] *)
Definition get_vacancies (net : network) (employer_id : Z) (w : net_world)
  : outcome pyval * net_world :=
  match requests_get net (GetVacancies employer_id) w with
  | (ConnectionFailed, w1) => (Raised RequestException, w1)
  | (Response status_code body, w1) =>
      if status_code =? 200 then
        match response_json body with
        | Returned (PDict d) => (Returned (get_or d "items" (PList [])), w1)
        | Returned _ => (Raised AttributeError, w1)
        | Raised e => (Raised e, w1)
        end
      else (Returned (PList []), w1)
  end.

(* ===================================================================== *)
(** ** main.py: get_vacancies_with_retry *)
(* ===================================================================== *)

(** The body of [for attempt in range(retries + 1)], one list element per
    iteration still to run. *)
Fixpoint retry_loop (net : network) (employer_id retries : Z)
  (attempts : list Z) (w : net_world) : pyval * net_world :=
  match attempts with
  | [] => (PList [], w)
  | attempt :: rest =>
      match get_vacancies net employer_id w with
      | (Returned v, w1) => (v, w1)
      | (Raised e, w1) =>
          if attempt <? retries then
            let wait_time := 2 ^ attempt in
            let w2 := record_event
                        (Logged (WarnRetry (attempt + 1) retries wait_time)) w1 in
            retry_loop net employer_id retries rest
                       (record_event (Slept wait_time) w2)
          else
            retry_loop net employer_id retries rest
                       (record_event (Logged (ErrFetchVacancies employer_id e)) w1)
      end
  end.

Definition get_vacancies_with_retry (net : network) (employer_id retries : Z)
  (w : net_world) : pyval * net_world :=
  retry_loop net employer_id retries (range (retries + 1)) w.

(** Projections of the history used by the statements below. *)
Fixpoint sleeps (h : list net_event) : list Z :=
  match h with
  | [] => []
  | Slept s :: rest => s :: sleeps rest
  | _ :: rest => sleeps rest
  end.

Fixpoint count_requests (h : list net_event) : nat :=
  match h with
  | [] => 0%nat
  | Requested _ :: rest => S (count_requests rest)
  | _ :: rest => count_requests rest
  end.

Definition total (l : list Z) : Z := fold_right Z.add 0 l.

(** A single fetch attempt fails in the sense of the specification when the
    call raises or when the response is not a success. *)
Definition spec_attempt_fails (r : http_result) : bool :=
  match r with
  | ConnectionFailed => true
  | Response status_code _ => negb (status_code =? 200)
  end.

(* ===================================================================== *)
(** ** db_utils.py: the schema *)
(* ===================================================================== *)

(** Rows of the two tables of [create_tables].  A column declared [NOT NULL]
    holds a value, any other column an [option].  The surrogate column
    [id SERIAL PRIMARY KEY] is filled by the server and its value is used by
    none of the functions below; it is left out of the rows. *)
Record employer_row : Type := mkEmployer {
  e_employer_id : Z;            (* INT UNIQUE NOT NULL *)
  e_name : string;              (* VARCHAR(255) NOT NULL *)
  e_url : option string         (* VARCHAR(255) *)
}.

Record vacancy_row : Type := mkVacancy {
  v_vacancy_id : Z;             (* INT UNIQUE NOT NULL *)
  v_title : string;             (* VARCHAR(255) NOT NULL *)
  v_salary_from : option Z;     (* INT *)
  v_salary_to : option Z;       (* INT *)
  v_currency : option string;   (* VARCHAR(10) *)
  v_employer_id : option Z;     (* INT REFERENCES employers(employer_id) *)
  v_url : option string         (* VARCHAR(255) *)
}.

Record database : Type := mkDb {
  employers : list employer_row;
  vacancies : list vacancy_row
}.

Definition empty_db : database := mkDb [] [].

Definition int4_min : Z := - 2 ^ 31.
Definition int4_max : Z := 2 ^ 31 - 1.
Definition in_int4 (z : Z) : bool := (int4_min <=? z) && (z <=? int4_max).

(* ===================================================================== *)
(** ** Binding Python values to statement parameters *)
(* ===================================================================== *)

(** The fate of one parameter of an [INSERT]: SQL [NULL], a value of the
    column type, an exception raised by psycopg2 before anything is sent
    (the value cannot be adapted), or an error raised by the server while it
    coerces the literal to the column type. *)
Inductive bound (A : Type) : Type :=
| BNull
| BVal (a : A)
| BClientError
| BServerError.
Arguments BNull {A}.
Arguments BVal {A} a.
Arguments BClientError {A}.
Arguments BServerError {A}.

(** How psycopg2 and the server turn a Python value other than [None] into a
    value of an [INT] or a [VARCHAR(n)] column depends on their versions and
    settings.  The development is parametric in it. *)
Class Driver : Type := {
  adapt_int4 : pyval -> bound Z;
  adapt_varchar : nat -> pyval -> bound string
}.

Section Binding.
Context {D : Driver}.

(** [None] is always sent as [NULL]; a value the driver produces for an
    [INT] column must fit in 32 bits. *)
Definition bind_int4 (v : pyval) : bound Z :=
  match v with
  | PNone => BNull
  | _ => match adapt_int4 v with
         | BVal z => if in_int4 z then BVal z else BServerError
         | b => b
         end
  end.

Definition bind_varchar (n : nat) (v : pyval) : bound string :=
  match v with
  | PNone => BNull
  | _ => match adapt_varchar n v with
         | BVal s => if (String.length s <=? n)%nat then BVal s else BServerError
         | b => b
         end
  end.
End Binding.

Definition is_client_error {A : Type} (b : bound A) : bool :=
  match b with BClientError => true | _ => false end.

Definition is_server_error {A : Type} (b : bound A) : bool :=
  match b with BServerError => true | _ => false end.

(** The stored content of a nullable column. *)
Definition nullable {A : Type} (b : bound A) : option A :=
  match b with BVal a => Some a | _ => None end.

(** The row a statement presents to a table, or the reason it has none. *)
Inductive row_result (R : Type) : Type :=
| RowOk (r : R)
| RowClientError        (* raised by psycopg2; the server sees nothing *)
| RowServerError.       (* coercion error or NOT NULL violation *)
Arguments RowOk {R} r.
Arguments RowClientError {R}.
Arguments RowServerError {R}.

Definition employer_params : Type := (pyval * pyval * pyval)%type.

Definition vacancy_params : Type :=
  (pyval * pyval * pyval * pyval * pyval * pyval * pyval)%type.

Section Rows.
Context {D : Driver}.

(** [INSERT INTO employers (employer_id, name, url) VALUES (%s, %s, %s)] *)
Definition employer_row_of (p : employer_params) : row_result employer_row :=
  let '(id, name, url) := p in
  let bi := bind_int4 id in
  let bn := bind_varchar 255 name in
  let bu := bind_varchar 255 url in
  if is_client_error bi || is_client_error bn || is_client_error bu
  then RowClientError
  else if is_server_error bi || is_server_error bn || is_server_error bu
  then RowServerError
  else match bi, bn with
       | BVal i, BVal n => RowOk (mkEmployer i n (nullable bu))
       | _, _ => RowServerError
       end.

(** [INSERT INTO vacancies (vacancy_id, title, salary_from, salary_to,
    currency, employer_id, url) VALUES (%s, %s, %s, %s, %s, %s, %s)] *)
Definition vacancy_row_of (p : vacancy_params) : row_result vacancy_row :=
  let '(id, title, sfrom, sto, currency, employer_id, url) := p in
  let bi := bind_int4 id in
  let bt := bind_varchar 255 title in
  let bf := bind_int4 sfrom in
  let bo := bind_int4 sto in
  let bc := bind_varchar 10 currency in
  let be := bind_int4 employer_id in
  let bu := bind_varchar 255 url in
  if is_client_error bi || is_client_error bt || is_client_error bf
     || is_client_error bo || is_client_error bc || is_client_error be
     || is_client_error bu
  then RowClientError
  else if is_server_error bi || is_server_error bt || is_server_error bf
          || is_server_error bo || is_server_error bc || is_server_error be
          || is_server_error bu
  then RowServerError
  else match bi, bt with
       | BVal i, BVal t =>
           RowOk (mkVacancy i t (nullable bf) (nullable bo) (nullable bc)
                            (nullable be) (nullable bu))
       | _, _ => RowServerError
       end.
End Rows.

(* ===================================================================== *)
(** ** The PostgreSQL session behind a psycopg2 connection *)
(* ===================================================================== *)

Inductive statement : Type :=
| InsertEmployer (p : employer_params)
| InsertVacancy (p : vacancy_params).

(** [psycopg2.connect] without [autocommit]: statements run inside a
    transaction.  [committed] is what other sessions read, [working] what the
    open transaction sees.  Once a statement has failed on the server the
    transaction is aborted ([tx_failed]): the server refuses every further
    statement until the transaction ends, and ending it discards its work.
    [executed] lists the calls of [cursor.execute] and [app_log] the records
    written through [logging], oldest first. *)
Record session : Type := mkSession {
  committed : database;
  working : database;
  tx_failed : bool;
  executed : list statement;
  app_log : list log_record
}.

(** [psycopg2.connect(...)] to a server holding [db]. *)
Definition connect (db : database) : session := mkSession db db false [] [].

Definition logging (l : log_record) (s : session) : session :=
  mkSession (committed s) (working s) (tx_failed s) (executed s)
            (app_log s ++ [l]).

Definition note_executed (st : statement) (s : session) : session :=
  mkSession (committed s) (working s) (tx_failed s) (executed s ++ [st])
            (app_log s).

Definition set_working (db : database) (s : session) : session :=
  mkSession (committed s) db (tx_failed s) (executed s) (app_log s).

Definition abort_tx (s : session) : session :=
  mkSession (committed s) (working s) true (executed s) (app_log s).

(** [conn.commit()]: an aborted transaction is rolled back instead. *)
Definition commit (s : session) : session :=
  if tx_failed s
  then mkSession (committed s) (committed s) false (executed s) (app_log s)
  else mkSession (working s) (working s) false (executed s) (app_log s).

Definition has_employer (employer_id : Z) (t : list employer_row) : bool :=
  existsb (fun r => e_employer_id r =? employer_id) t.

Definition has_vacancy (vacancy_id : Z) (t : list vacancy_row) : bool :=
  existsb (fun r => v_vacancy_id r =? vacancy_id) t.

(** [INSERT ... ON CONFLICT (employer_id) DO NOTHING] of a well-formed row. *)
Definition insert_employer_row (r : employer_row) (db : database) : database :=
  if has_employer (e_employer_id r) (employers db) then db
  else mkDb (employers db ++ [r]) (vacancies db).

(** The foreign key of [vacancies.employer_id]: [NULL] references nothing. *)
Definition references_ok (r : vacancy_row) (db : database) : bool :=
  match v_employer_id r with
  | None => true
  | Some e => has_employer e (employers db)
  end.

(** [INSERT ... ON CONFLICT (vacancy_id) DO NOTHING] of a well-formed row;
    [None] is a foreign-key violation, checked once the row has been added. *)
Definition insert_vacancy_row (r : vacancy_row) (db : database)
  : option database :=
  if has_vacancy (v_vacancy_id r) (vacancies db) then Some db
  else if references_ok r db
       then Some (mkDb (employers db) (vacancies db ++ [r]))
       else None.

(** What [cursor.execute] tells its caller. *)
Inductive exec_result : Type :=
| Executed
| ExecRaised.     (* an exception, subclass of [Exception] *)

Section Execute.
Context {D : Driver}.

(** The server's part of a statement, in an open, healthy transaction. *)
Definition run_statement (st : statement) (db : database)
  : row_result database :=
  match st with
  | InsertEmployer p =>
      match employer_row_of p with
      | RowOk r => RowOk (insert_employer_row r db)
      | RowClientError => RowClientError
      | RowServerError => RowServerError
      end
  | InsertVacancy p =>
      match vacancy_row_of p with
      | RowOk r =>
          match insert_vacancy_row r db with
          | Some db' => RowOk db'
          | None => RowServerError
          end
      | RowClientError => RowClientError
      | RowServerError => RowServerError
      end
  end.

Definition client_rejects (st : statement) : bool :=
  match st with
  | InsertEmployer p =>
      match employer_row_of p with RowClientError => true | _ => false end
  | InsertVacancy p =>
      match vacancy_row_of p with RowClientError => true | _ => false end
  end.

(** [cursor.execute(query, params)]: psycopg2 first adapts the parameters
    (and raises when it cannot), then sends the statement; an aborted
    transaction refuses it; otherwise the server runs it. *)
Definition cursor_execute (st : statement) (s : session)
  : exec_result * session :=
  let s1 := note_executed st s in
  if client_rejects st then (ExecRaised, s1)
  else if tx_failed s1 then (ExecRaised, s1)
  else match run_statement st (working s1) with
       | RowOk db' => (Executed, set_working db' s1)
       | _ => (ExecRaised, abort_tx s1)
       end.
End Execute.

(* ===================================================================== *)
(** ** main.py: validation and the two inserting functions *)
(* ===================================================================== *)

Definition required_fields : list string := ["id"; "name"; "employer"].

(** The loop of [validate_data] over the fields still to check. *)
Fixpoint check_fields (fields : list string) (vacancy : dict) (s : session)
  : bool * session :=
  match fields with
  | [] => (true, s)
  | field :: rest =>
      if negb (dict_has vacancy field)
      then (false,
            logging (WarnMissingField field (get_or vacancy "id" (PStr "N/A"))) s)
      else check_fields rest vacancy s
  end.

Definition validate_data (vacancy : dict) (s : session) : bool * session :=
  check_fields required_fields vacancy s.

Section Inserting.
Context {D : Driver}.

(** One iteration of the loop of [insert_employers]. *)
Definition insert_employer (employer : dict) (s : session) : session :=
  let params := (get_or employer "id" PNone,
                 get_or employer "name" (PStr ""),
                 get_or employer "alternate_url" (PStr "")) in
  match cursor_execute (InsertEmployer params) s with
  | (Executed, s1) => s1
  | (ExecRaised, s1) =>
      logging (ErrInsertEmployer (get_or employer "id" (PStr "N/A"))) s1
  end.

Fixpoint insert_employers_loop (data : list dict) (s : session) : session :=
  match data with
  | [] => s
  | employer :: rest => insert_employers_loop rest (insert_employer employer s)
  end.

Definition insert_employers (data : list dict) (s : session) : session :=
  commit (insert_employers_loop data s).

(** The parameter tuple of the vacancy insert, once [employer] is known to
    be a dictionary. *)
Definition vacancy_insert_params (vacancy employer : dict) : vacancy_params :=
  let salary :=
    match get_or vacancy "salary" (PDict []) with
    | PDict d => d
    | _ => []
    end in
  (get_or vacancy "id" PNone,
   get_or vacancy "name" (PStr ""),
   get_or salary "from" PNone,
   get_or salary "to" PNone,
   get_or salary "currency" PNone,
   get_or employer "id" PNone,
   get_or vacancy "alternate_url" (PStr "")).

(** The [try] block of [insert_vacancies] for a record that passed
    validation.  [employer.get] raises [AttributeError] inside the [try]
    when [employer] is not a dictionary, before [cursor.execute] is
    reached. *)
Definition try_insert_vacancy (vacancy : dict) (s : session) : session :=
  match get_or vacancy "employer" (PDict []) with
  | PDict employer =>
      match cursor_execute
              (InsertVacancy (vacancy_insert_params vacancy employer)) s with
      | (Executed, s1) => s1
      | (ExecRaised, s1) =>
          logging (ErrInsertVacancy (get_or vacancy "id" (PStr "N/A"))) s1
      end
  | _ => logging (ErrInsertVacancy (get_or vacancy "id" (PStr "N/A"))) s
  end.

(** One iteration of the loop of [insert_vacancies]. *)
Definition insert_vacancy (vacancy : dict) (s : session) : session :=
  match validate_data vacancy s with
  | (false, s1) => s1                       (* continue *)
  | (true, s1) => try_insert_vacancy vacancy s1
  end.

Fixpoint insert_vacancies_loop (data : list dict) (s : session) : session :=
  match data with
  | [] => s
  | vacancy :: rest => insert_vacancies_loop rest (insert_vacancy vacancy s)
  end.

Definition insert_vacancies (data : list dict) (s : session) : session :=
  commit (insert_vacancies_loop data s).

(** The loading block of [main]: one connection, employers first, then
    vacancies; leaving the [with] block commits once more.  The result is
    the database as other sessions see it afterwards. *)
Definition load (employers_data vacancies_data : list dict) (db : database)
  : database :=
  committed
    (commit (insert_vacancies vacancies_data
               (insert_employers employers_data (connect db)))).
End Inserting.

(* ===================================================================== *)
(** ** db_manager.py: the read queries *)
(* ===================================================================== *)

(** SQL arithmetic on [INT] columns.  [NULL] propagates; a sum that does not
    fit in 32 bits makes the server raise "integer out of range", modelled by
    the outer [None]. *)
Inductive sql_int : Type :=
| SqlNull
| SqlInt (z : Z)
| SqlOutOfRange.

(** [(salary_from + salary_to) / 2]: integer addition, then integer division,
    which truncates towards zero. *)
Definition midpoint_expr (r : vacancy_row) : sql_int :=
  match v_salary_from r, v_salary_to r with
  | Some f, Some t =>
      if in_int4 (f + t) then SqlInt (Z.quot (f + t) 2) else SqlOutOfRange
  | _, _ => SqlNull
  end.

(** [salary_from IS NOT NULL AND salary_to IS NOT NULL] *)
Definition both_bounds (r : vacancy_row) : bool :=
  match v_salary_from r, v_salary_to r with
  | Some _, Some _ => true
  | _, _ => false
  end.

(** The values an aggregate sees: [NULL]s are skipped, an error stops the
    query. *)
Fixpoint aggregate_input (xs : list sql_int) : option (list Z) :=
  match xs with
  | [] => Some []
  | SqlNull :: rest => aggregate_input rest
  | SqlInt z :: rest =>
      match aggregate_input rest with
      | Some zs => Some (z :: zs)
      | None => None
      end
  | SqlOutOfRange :: rest => None
  end.

(** [AVG] over integers is an exact [numeric]: the sum over the count, and
    [NULL] over no value at all.  (The server keeps at least sixteen
    significant digits of the quotient; the model keeps the quotient.) *)
Definition sql_avg (zs : list Z) : option Q :=
  match zs with
  | [] => None
  | _ => Some (Qmake (total zs) (Pos.of_nat (List.length zs)))
  end.

(** [ROUND] of a [numeric]: to the nearest integer, ties away from zero. *)
Definition sql_round (q : Q) : Z :=
  let n := Qnum q in
  let d := Zpos (Qden q) in
  if 0 <=? n then (2 * n + d) / (2 * d)
  else - ((2 * (- n) + d) / (2 * d)).

(** [DBManager.get_avg_salary]: the rows of the result, each a 1-tuple whose
    value may be [NULL]; [None] when the query raises. *)
Definition get_avg_salary (db : database) : option (list (option Z)) :=
  match aggregate_input
          (map midpoint_expr (filter both_bounds (vacancies db))) with
  | Some zs => Some [option_map sql_round (sql_avg zs)]
  | None => None
  end.

(** [x > y] between an integer and a [numeric]. *)
Definition sql_gt (x : Z) (y : Q) : bool := negb (Qle_bool (inject_Z x) y).

(** The outer [WHERE] of [get_vacancies_with_higher_salary] for one row, the
    scalar subquery having produced [avg]. *)
Definition above_average (avg : option Q) (r : vacancy_row) : bool :=
  match midpoint_expr r, avg with
  | SqlInt m, Some a => sql_gt m a && both_bounds r
  | _, _ => false
  end.

Definition title_and_midpoint (r : vacancy_row) : string * Z :=
  (v_title r, match midpoint_expr r with SqlInt m => m | _ => 0 end).

(** [DBManager.get_vacancies_with_higher_salary].  The subquery averages the
    midpoint expression over every row of the table. *)
Definition get_vacancies_with_higher_salary (db : database)
  : option (list (string * Z)) :=
  match aggregate_input (map midpoint_expr (vacancies db)) with
  | Some zs =>
      Some (map title_and_midpoint
                (filter (above_average (sql_avg zs)) (vacancies db)))
  | None => None
  end.

(** Case folding of [str.lower] and of SQL [LOWER].  Strings are strings of
    bytes here and only the letters A to Z are folded: on text made of ASCII
    characters this is what Python does, and the server too under a locale
    that folds these letters to a to z.  Text with other characters is folded
    by tables that are not part of this development; statements that depend
    on the folding are made for ASCII text. *)
Definition lower_char (c : ascii) : ascii :=
  let n := nat_of_ascii c in
  if ((65 <=? n) && (n <=? 90))%nat then ascii_of_nat (n + 32) else c.

Fixpoint lower (s : string) : string :=
  match s with
  | EmptyString => EmptyString
  | String c rest => String (lower_char c) (lower rest)
  end.

(** [text LIKE pattern] with the default escape character: [%] stands for
    any run of characters, [_] for any one character, a backslash makes the
    next character literal.  (A pattern ending in a lone backslash is an
    error on the server; it matches nothing here.  The patterns built below
    end in [%].) *)
Fixpoint like (pattern text : string) {struct pattern} : bool :=
  match pattern with
  | EmptyString =>
      match text with EmptyString => true | _ => false end
  | String "%" p =>
      (fix from (t : string) : bool :=
         like p t ||
         match t with
         | EmptyString => false
         | String _ t' => from t'
         end) text
  | String "_" p =>
      match text with
      | EmptyString => false
      | String _ t => like p t
      end
  | String "\" (String c p) =>
      match text with
      | EmptyString => false
      | String c' t => Ascii.eqb c c' && like p t
      end
  | String "\" EmptyString => false
  | String c p =>
      match text with
      | EmptyString => false
      | String c' t => Ascii.eqb c c' && like p t
      end
  end.

Definition keyword_row (r : vacancy_row) : string * option Z * option string :=
  (v_title r, v_employer_id r, v_url r).

(** [DBManager.get_vacancies_with_keyword]: the pattern is
    [f"%{keyword.lower()}%"], the filter [LOWER(title) LIKE %s]. *)
Definition get_vacancies_with_keyword (keyword : string) (db : database)
  : list (string * option Z * option string) :=
  let pattern := "%" ++ lower keyword ++ "%" in
  map keyword_row
      (filter (fun r => like pattern (lower (v_title r))) (vacancies db)).

(** Listing every stored vacancy as (title, employer_id, url). *)
Definition all_keyword_rows (db : database)
  : list (string * option Z * option string) :=
  map keyword_row (vacancies db).

(* ===================================================================== *)
(** ** Statements of a batch and their effect on the database *)
(* ===================================================================== *)

(** The answer of [validate_data], without its log record. *)
Definition has_required_fields (vacancy : dict) : bool :=
  forallb (dict_has vacancy) required_fields.

Definition employer_statement (employer : dict) : statement :=
  InsertEmployer (get_or employer "id" PNone,
                  get_or employer "name" (PStr ""),
                  get_or employer "alternate_url" (PStr "")).

Section Batches.
Context {D : Driver}.

(** The statement a vacancy record gives rise to, if any. *)
Definition vacancy_statement (vacancy : dict) : list statement :=
  if has_required_fields vacancy then
    match get_or vacancy "employer" (PDict []) with
    | PDict employer =>
        [InsertVacancy (vacancy_insert_params vacancy employer)]
    | _ => []
    end
  else [].

(** The effect of one [cursor.execute] on the open transaction: its view of
    the database and whether it is aborted. *)
Definition exec_db (st : statement) (w : database) (failed : bool)
  : database * bool :=
  if client_rejects st then (w, failed)
  else if failed then (w, true)
  else match run_statement st w with
       | RowOk w' => (w', false)
       | _ => (w, true)
       end.

Fixpoint run_batch (sts : list statement) (w : database) (failed : bool)
  : database * bool :=
  match sts with
  | [] => (w, failed)
  | st :: rest =>
      let '(w1, f1) := exec_db st w failed in run_batch rest w1 f1
  end.

(** A whole transaction: the statements, then [commit]. *)
Definition batch (sts : list statement) (db : database) : database :=
  let '(w, failed) := run_batch sts db false in
  if failed then db else w.

(** The unique key of the statement's row is already stored. *)
Definition present (st : statement) (db : database) : bool :=
  match st with
  | InsertEmployer p =>
      match employer_row_of p with
      | RowOk r => has_employer (e_employer_id r) (employers db)
      | _ => false
      end
  | InsertVacancy p =>
      match vacancy_row_of p with
      | RowOk r => has_vacancy (v_vacancy_id r) (vacancies db)
      | _ => false
      end
  end.

(** The statement fails on the server whatever the tables hold. *)
Definition ill_formed (st : statement) : bool :=
  match st with
  | InsertEmployer p =>
      match employer_row_of p with RowServerError => true | _ => false end
  | InsertVacancy p =>
      match vacancy_row_of p with RowServerError => true | _ => false end
  end.
End Batches.

Definition is_employer_statement (st : statement) : bool :=
  match st with InsertEmployer _ => true | InsertVacancy _ => false end.

(** Every key stored in [db] is stored in [db']. *)
Definition grows (db db' : database) : Prop :=
  (forall k, has_employer k (employers db) = true ->
             has_employer k (employers db') = true) /\
  (forall k, has_vacancy k (vacancies db) = true ->
             has_vacancy k (vacancies db') = true).

(** The [UNIQUE] constraints of the two tables. *)
Definition unique_keys (db : database) : Prop :=
  NoDup (map e_employer_id (employers db)) /\
  NoDup (map v_vacancy_id (vacancies db)).

(* ===================================================================== *)
(** ** A driver for the worked examples *)
(* ===================================================================== *)

Definition digit_of (c : ascii) : option Z :=
  let n := nat_of_ascii c in
  if ((48 <=? n) && (n <=? 57))%nat then Some (Z.of_nat (n - 48)) else None.

Fixpoint parse_digits (s : string) (acc : Z) : option Z :=
  match s with
  | EmptyString => Some acc
  | String c rest =>
      match digit_of c with
      | Some d => parse_digits rest (10 * acc + d)
      | None => None
      end
  end.

Definition parse_decimal (s : string) : option Z :=
  match s with
  | EmptyString => None
  | _ => parse_digits s 0
  end.

(** Integers and strings of digits go to [INT] columns, strings to [VARCHAR]
    columns, a dictionary cannot be adapted, and nothing else is accepted. *)
Definition example_driver : Driver := {|
  adapt_int4 v :=
    match v with
    | PInt n => BVal n
    | PStr s => match parse_decimal s with
                | Some n => BVal n
                | None => BServerError
                end
    | PDict _ => BClientError
    | _ => BServerError
    end;
  adapt_varchar _ v :=
    match v with
    | PStr s => BVal s
    | PDict _ => BClientError
    | _ => BServerError
    end
|}.

(* ===================================================================== *)
(** ** The reports as the specification words them *)
(* ===================================================================== *)

(** The midpoint of the two bounds as a rational number. *)
Definition exact_midpoint (r : vacancy_row) : option Q :=
  match v_salary_from r, v_salary_to r with
  | Some f, Some t => Some (Qmake (f + t) 2)
  | _, _ => None
  end.

Fixpoint exact_midpoints (t : list vacancy_row) : list Q :=
  match t with
  | [] => []
  | r :: rest =>
      match exact_midpoint r with
      | Some m => m :: exact_midpoints rest
      | None => exact_midpoints rest
      end
  end.

Definition exact_average (ms : list Q) : option Q :=
  match ms with
  | [] => None
  | _ => Some (fold_right Qplus 0%Q ms / inject_Z (Z.of_nat (List.length ms)))%Q
  end.

(** "average of (salary_from+salary_to)/2 over vacancies where both bounds
    are present; rounded to nearest whole unit; empty result set if no
    qualifying rows" *)
Definition spec_average_salary (db : database) : list Z :=
  match exact_average (exact_midpoints (vacancies db)) with
  | Some a => [sql_round a]
  | None => []
  end.

(** "vacancies whose midpoint salary strictly exceeds the global average
    computed by the same formula, restricted to rows with both bounds
    present" *)
Definition spec_above_average (db : database) : list (string * Q) :=
  match exact_average (exact_midpoints (vacancies db)) with
  | Some a =>
      flat_map (fun r => match exact_midpoint r with
                         | Some m => if Qle_bool m a then [] else [(v_title r, m)]
                         | None => []
                         end) (vacancies db)
  | None => []
  end.

(** The integer midpoints the queries of [DBManager] work with. *)
Definition int_midpoint (r : vacancy_row) : Z :=
  match v_salary_from r, v_salary_to r with
  | Some f, Some t => Z.quot (f + t) 2
  | _, _ => 0
  end.

Definition int_midpoints (db : database) : list Z :=
  map int_midpoint (filter both_bounds (vacancies db)).

(** No qualifying row has a sum of bounds beyond 32 bits. *)
Definition sum_fits (r : vacancy_row) : bool :=
  match v_salary_from r, v_salary_to r with
  | Some f, Some t => in_int4 (f + t)
  | _, _ => true
  end.

(** The two salary reports read as the specification words them: the
    average report returns the rounded exact average, or no row at all; the
    above-average report returns the titles whose exact midpoint exceeds the
    exact average.  Both for tables whose sums fit in 32 bits. *)
Definition average_salary_as_specified : Prop :=
  forall db : database,
    forallb sum_fits (vacancies db) = true ->
    get_avg_salary db = Some (map Some (spec_average_salary db)).

Definition above_average_as_specified : Prop :=
  forall db : database,
    forallb sum_fits (vacancies db) = true ->
    option_map (map fst) (get_vacancies_with_higher_salary db)
    = Some (map fst (spec_above_average db)).

(* ===================================================================== *)
(** ** Vocabulary for the statements about the retrying fetch *)
(* ===================================================================== *)

(** [Hh_Api.get_vacancies] raises on this answer of [requests.get]. *)
Definition attempt_raises (r : http_result) : bool :=
  match r with
  | ConnectionFailed => true
  | Response status_code body =>
      (status_code =? 200) &&
      match body with
      | Some (PDict _) => false
      | _ => true
      end
  end.

(** The requests and the sleeps of a history, in order. *)
Fixpoint timeline (h : list net_event) : list net_event :=
  match h with
  | [] => []
  | Logged _ :: rest => timeline rest
  | e :: rest => e :: timeline rest
  end.

(** What one failed iteration of the retry loop adds to the timeline. *)
Definition failed_attempt (employer_id retries attempt : Z) : list net_event :=
  Requested (GetVacancies employer_id)
  :: (if attempt <? retries then [Slept (2 ^ attempt)] else []).

(** The claim that every failed attempt, in the sense of the specification,
    is retried: with at least one retry allowed, a first attempt that fails
    is followed by a second request. *)
Definition every_failure_is_retried : Prop :=
  forall (net : network) (employer_id retries : Z) (w : net_world),
    0 < retries ->
    spec_attempt_fails (net (requests_made w) (GetVacancies employer_id)) = true ->
    (requests_made w + 2 <=
     requests_made (snd (get_vacancies_with_retry net employer_id retries w)))%nat.

(** The retry policy as the specification words it, for three retries: a
    failed attempt is any attempt that fails in the sense of the
    specification.  When the four attempts fail, four requests are made, with
    sleeps of 1, 2 and 4 seconds between them, and the empty list is
    returned; when two attempts fail and the third succeeds with [v], the
    result is [v] after sleeping [2^0 + 2^1] seconds. *)
Definition retry_policy_as_specified : Prop :=
  forall (net : network) (employer_id : Z),
    ((forall i, (i < 4)%nat ->
        spec_attempt_fails (net i (GetVacancies employer_id)) = true) ->
     let '(v, w) := get_vacancies_with_retry net employer_id 3 net_start in
     v = PList [] /\
     requests_made w = 4%nat /\
     timeline (history w)
     = [Requested (GetVacancies employer_id); Slept (2 ^ 0);
        Requested (GetVacancies employer_id); Slept (2 ^ 1);
        Requested (GetVacancies employer_id); Slept (2 ^ 2);
        Requested (GetVacancies employer_id)])
    /\
    (forall v,
       spec_attempt_fails (net 0%nat (GetVacancies employer_id)) = true ->
       spec_attempt_fails (net 1%nat (GetVacancies employer_id)) = true ->
       spec_attempt_fails (net 2%nat (GetVacancies employer_id)) = false ->
       fst (get_vacancies net employer_id (mkNet 2 [])) = Returned v ->
       let '(r, w) := get_vacancies_with_retry net employer_id 3 net_start in
       r = v /\
       requests_made w = 3%nat /\
       total (sleeps (history w)) = 2 ^ 0 + 2 ^ 1).

(** A remote side that answers 503 twice and then 200 with one vacancy. *)
Definition net_recovering : network :=
  fun n _ =>
    if (n <? 2)%nat then Response 503 None
    else Response 200 (Some (PDict [("items", PList [PInt 7])])).

(** A remote side that answers every request with status 503. *)
Definition net_unavailable : network := fun _ _ => Response 503 None.

(* ===================================================================== *)
(** ** main.py: the fetching loops and the loading block of [main] *)
(* ===================================================================== *)

(** The employer identifiers of [main] after [int(...)], and the
    [logging.error] records of the employer loop as (identifier, exception)
    pairs. *)
Definition fetch_error : Type := (Z * exn)%type.

(** [for employer_id_str in employer_ids: try: employers_data.append(
    api.get_employer(employer_id)) except Exception: logging.error(...)] *)
Fixpoint fetch_employers (net : network) (employer_ids : list Z)
  (w : net_world) : list pyval * list fetch_error * net_world :=
  match employer_ids with
  | [] => ([], [], w)
  | employer_id :: rest =>
      match get_employer net employer_id w with
      | (Returned employer, w1) =>
          let '(data, errors, w2) := fetch_employers net rest w1 in
          (employer :: data, errors, w2)
      | (Raised e, w1) =>
          let '(data, errors, w2) := fetch_employers net rest w1 in
          (data, (employer_id, e) :: errors, w2)
      end
  end.

(** The keys of a dictionary, each once, in the order of their first
    binding. *)
Fixpoint dict_keys (d : dict) : list string :=
  match d with
  | [] => []
  | (k, _) :: rest =>
      k :: filter (fun k' => negb (String.eqb k k')) (dict_keys rest)
  end.

(** What [list.extend(v)] appends: the items of a list, the keys of a
    dictionary, the characters of a string; any other value is not iterable
    and [extend] raises [TypeError]. *)
Definition py_iter (v : pyval) : option (list pyval) :=
  match v with
  | PList items => Some items
  | PDict d => Some (map PStr (dict_keys d))
  | PStr s =>
      Some (map (fun c => PStr (String c EmptyString)) (list_ascii_of_string s))
  | _ => None
  end.

(** [for employer_id_str in employer_ids: vacancies_data.extend(
    get_vacancies_with_retry(api, employer_id))]; [None] when [extend]
    raises, which ends the loop. *)
Fixpoint fetch_vacancies (net : network) (employer_ids : list Z)
  (w : net_world) : option (list pyval) * net_world :=
  match employer_ids with
  | [] => (Some [], w)
  | employer_id :: rest =>
      let '(vacancies, w1) := get_vacancies_with_retry net employer_id 3 w in
      match py_iter vacancies with
      | None => (None, w1)
      | Some items =>
          let '(more, w2) := fetch_vacancies net rest w1 in
          (option_map (fun l => items ++ l)%list more, w2)
      end
  end.

(** The records of a list up to the first one that is not a dictionary, and
    whether all of them are dictionaries.  On a record that is not a
    dictionary [insert_employers] raises from inside its [except] block
    ([employer.get] in the log message), and [insert_vacancies] raises from
    [validate_data] or from [vacancy.get], outside its [try] block. *)
Fixpoint dict_prefix (records : list pyval) : list dict * bool :=
  match records with
  | [] => ([], true)
  | PDict d :: rest =>
      let '(ds, all) := dict_prefix rest in (d :: ds, all)
  | _ :: _ => ([], false)
  end.

(** [conn.rollback()], which leaving [with psycopg2.connect(...) as conn]
    runs when an exception escapes the block. *)
Definition rollback (s : session) : session :=
  mkSession (committed s) (committed s) false (executed s) (app_log s).

Section Main.
Context {D : Driver}.

(** The [with psycopg2.connect(...) as conn] block of [main] on the fetched
    records: the database as other sessions see it afterwards, and whether
    the block ended without an exception. *)
Definition main_load (employers_data vacancies_data : list pyval)
  (db : database) : database * bool :=
  let '(es, all_employers) := dict_prefix employers_data in
  if all_employers then
    let s1 := insert_employers es (connect db) in
    let '(vs, all_vacancies) := dict_prefix vacancies_data in
    if all_vacancies
    then (committed (commit (insert_vacancies vs s1)), true)
    else (committed (rollback (insert_vacancies_loop vs s1)), false)
  else (committed (rollback (insert_employers_loop es (connect db))), false).

(** The [try] block of [main] from the employer loop on, the tables being
    the ones [create_tables] left: the stored rows afterwards, and whether
    "Данные успешно загружены в БД" is printed. *)
Definition main_ingest (net : network) (employer_ids : list Z) (db : database)
  : database * bool :=
  let '(employers_data, _, w1) := fetch_employers net employer_ids net_start in
  match fetch_vacancies net employer_ids w1 with
  | (Some vacancies_data, _) => main_load employers_data vacancies_data db
  | (None, _) => (db, false)
  end.
End Main.

(** Every vacancy row with an employer refers to a stored employer. *)
Definition referential_integrity (db : database) : Prop :=
  forall v, In v (vacancies db) -> references_ok v db = true.

(** [db'] holds the rows of [db], unchanged and in place, and maybe more
    after them. *)
Definition extends (db db' : database) : Prop :=
  (exists es, employers db' = (employers db ++ es)%list) /\
  (exists vs, vacancies db' = (vacancies db ++ vs)%list).

(* ===================================================================== *)
(** ** db_manager.py: the two join reports *)
(* ===================================================================== *)

(** [e.employer_id = v.employer_id]; a [NULL] reference equals nothing. *)
Definition employs (e : employer_row) (v : vacancy_row) : bool :=
  match v_employer_id v with
  | Some k => k =? e_employer_id e
  | None => false
  end.

Definition vacancies_of (e : employer_row) (db : database) : list vacancy_row :=
  filter (employs e) (vacancies db).

(** [employers e LEFT JOIN vacancies v ON e.employer_id = v.employer_id]:
    an employer without vacancy gives one row whose vacancy side is
    [NULL]. *)
Definition left_join (db : database)
  : list (employer_row * option vacancy_row) :=
  flat_map (fun e => match vacancies_of e db with
                     | [] => [(e, None)]
                     | vs => map (fun v => (e, Some v)) vs
                     end)
           (employers db).

(** The rows of the left join that one employer gives. *)
Definition joined_rows (db : database) (e : employer_row)
  : list (employer_row * option vacancy_row) :=
  match vacancies_of e db with
  | [] => [(e, None)]
  | vs => map (fun v => (e, Some v)) vs
  end.

(** The vacancy side of a joined row is not [NULL]. *)
Definition with_vacancy (row : employer_row * option vacancy_row) : bool :=
  match snd row with Some _ => true | None => false end.

(** The distinct values of a list, each at its first place. *)
Fixpoint distinct (l : list string) : list string :=
  match l with
  | [] => []
  | x :: rest => x :: filter (fun y => negb (String.eqb x y)) (distinct rest)
  end.

(** [COUNT(v.id)] within the group of a name: the joined rows of the group
    whose vacancy side is not [NULL] ([id] is the primary key of
    [vacancies], so it is [NULL] on no vacancy row). *)
Definition count_joined (name : string)
  (rows : list (employer_row * option vacancy_row)) : nat :=
  List.length
    (filter (fun row => String.eqb (e_name (fst row)) name
                        && match snd row with Some _ => true | None => false end)
            rows).

(** [DBManager.get_companies_and_vacancies_count]: [GROUP BY e.name].  The
    server fixes no order of the groups; here they come in the order of the
    first employer of each name. *)
Definition get_companies_and_vacancies_count (db : database)
  : list (string * nat) :=
  let rows := left_join db in
  map (fun name => (name, count_joined name rows))
      (distinct (map (fun row => e_name (fst row)) rows)).

Definition vacancy_listing : Type :=
  (string * string * option Z * option Z * option string * option string)%type.

(** [DBManager.get_all_vacancies]: [vacancies v JOIN employers e ON
    v.employer_id = e.employer_id]. *)
Definition get_all_vacancies (db : database) : list vacancy_listing :=
  flat_map (fun v =>
              map (fun e => (e_name e, v_title v, v_salary_from v,
                             v_salary_to v, v_currency v, v_url v))
                  (filter (fun e => employs e v) (employers db)))
           (vacancies db).

(** The name of the employer a vacancy refers to, the empty string when it
    refers to none that is stored. *)
Definition employer_name_of (v : vacancy_row) (db : database) : string :=
  match find (fun e => employs e v) (employers db) with
  | Some e => e_name e
  | None => EmptyString
  end.

Definition has_employer_reference (v : vacancy_row) : bool :=
  match v_employer_id v with Some _ => true | None => false end.





(* ===================================================================== *)
(** ** main.py: user_interface *)
(* ===================================================================== *)

(** What the menu loop writes, one constructor per [print] of a result line
    and per [logging] call; [ShowMenu] stands for the seven lines of the
    menu. *)
Inductive ui_output : Type :=
| ShowMenu
| ShowCompany (name : string) (count : nat)
| ShowVacancy (row : vacancy_listing)
| ShowAverageSalary (value : option Z)
| ShowNoSalaryData
| ShowHigherSalary (title : string) (salary : Z)
| ShowFound (row : string * option Z * option string)
| ShowInvalidChoice
| ShowFailure          (* logging.error, then "Произошла ошибка. ..." *)
| LogCritical.         (* the outer [except] *)

(** Choice 3: the branch taken on the rows of [get_avg_salary]; each row is
    a 1-tuple, which is never empty. *)
Definition show_avg_salary (db : database) : list ui_output :=
  match get_avg_salary db with
  | Some (value :: _) => [ShowAverageSalary value]
  | Some [] => [ShowNoSalaryData]
  | None => [ShowFailure]
  end.

Definition show_higher_salary (db : database) : list ui_output :=
  match get_vacancies_with_higher_salary db with
  | Some rows => map (fun item => ShowHigherSalary (fst item) (snd item)) rows
  | None => [ShowFailure]
  end.

(** [user_interface] on the lines typed by the operator.  [input()] raises
    [EOFError] when they are used up: inside the [try] of choice 5 the inner
    [except] reports a failure and the loop goes on; at the menu the outer
    [except] logs a critical error and the function returns. *)
Fixpoint user_interface (inputs : list string) (db : database)
  : list ui_output :=
  ShowMenu ::
  match inputs with
  | [] => [LogCritical]
  | choice :: rest =>
      if String.eqb choice "1" then
        (map (fun company => ShowCompany (fst company) (snd company))
             (get_companies_and_vacancies_count db)
         ++ user_interface rest db)%list
      else if String.eqb choice "2" then
        (map ShowVacancy (get_all_vacancies db) ++ user_interface rest db)%list
      else if String.eqb choice "3" then
        (show_avg_salary db ++ user_interface rest db)%list
      else if String.eqb choice "4" then
        (show_higher_salary db ++ user_interface rest db)%list
      else if String.eqb choice "5" then
        match rest with
        | [] => [ShowFailure; ShowMenu; LogCritical]
        | keyword :: rest' =>
            (map ShowFound (get_vacancies_with_keyword keyword db)
             ++ user_interface rest' db)%list
        end
      else if String.eqb choice "0" then []
      else ShowInvalidChoice :: user_interface rest db
  end.

(* ===================================================================== *)
(** * Theorems *)
(* ===================================================================== *)

(** ** The retrying fetch *)

Local Open Scope list_scope.

Lemma timeline_app (h1 h2 : list net_event) :
  timeline (h1 ++ h2) = timeline h1 ++ timeline h2.
Proof.
  induction h1 as [|e h1 IH]; simpl; [reflexivity|].
  destruct e; simpl; rewrite IH; reflexivity.
Qed.

Lemma sleeps_app (h1 h2 : list net_event) :
  sleeps (h1 ++ h2) = sleeps h1 ++ sleeps h2.
Proof.
  induction h1 as [|e h1 IH]; simpl; [reflexivity|].
  destruct e; simpl; rewrite IH; reflexivity.
Qed.

Lemma sleeps_timeline (h : list net_event) : sleeps (timeline h) = sleeps h.
Proof.
  induction h as [|e h IH]; simpl; [reflexivity|].
  destruct e; simpl; rewrite ?IH; reflexivity.
Qed.

Lemma count_requests_timeline (h : list net_event) :
  count_requests (timeline h) = count_requests h.
Proof.
  induction h as [|e h IH]; simpl; [reflexivity|].
  destruct e; simpl; rewrite ?IH; reflexivity.
Qed.

(** A raising attempt costs one request and hands an exception to the loop. *)
Lemma get_vacancies_raises (net : network) (employer_id : Z) (w : net_world) :
  attempt_raises (net (requests_made w) (GetVacancies employer_id)) = true ->
  exists e,
    get_vacancies net employer_id w
    = (Raised e, mkNet (S (requests_made w))
                       (history w ++ [Requested (GetVacancies employer_id)])).
Proof.
  unfold get_vacancies, requests_get.
  destruct (net (requests_made w) (GetVacancies employer_id))
    as [|status_code body]; simpl.
  - intros _. exists RequestException. reflexivity.
  - destruct (status_code =? 200); simpl; [|discriminate].
    destruct body as [v|]; simpl.
    + destruct v; try discriminate; intros _; exists AttributeError; reflexivity.
    + intros _. exists JSONDecodeError. reflexivity.
Qed.

(** An attempt that does not raise returns at once, after one request. *)
Lemma get_vacancies_returns (net : network) (employer_id : Z) (w : net_world) :
  attempt_raises (net (requests_made w) (GetVacancies employer_id)) = false ->
  exists v,
    get_vacancies net employer_id w
    = (Returned v, mkNet (S (requests_made w))
                         (history w ++ [Requested (GetVacancies employer_id)])).
Proof.
  unfold get_vacancies, requests_get.
  destruct (net (requests_made w) (GetVacancies employer_id))
    as [|status_code body]; simpl; [discriminate|].
  destruct (status_code =? 200); simpl.
  - destruct body as [v|]; simpl; [|discriminate].
    destruct v; try discriminate. intros _. eexists. reflexivity.
  - intros _. eexists. reflexivity.
Qed.

(** A response that is not a success is answered with the empty list: the
    loop never sees a failure. *)
Lemma get_vacancies_non_success (net : network) (employer_id : Z)
  (w : net_world) (status_code : Z) (body : option pyval) :
  net (requests_made w) (GetVacancies employer_id) = Response status_code body ->
  status_code <> 200 ->
  get_vacancies net employer_id w
  = (Returned (PList []),
     mkNet (S (requests_made w))
           (history w ++ [Requested (GetVacancies employer_id)])).
Proof.
  intros Hnet Hst. unfold get_vacancies, requests_get. rewrite Hnet.
  destruct (Z.eqb_spec status_code 200); [contradiction|reflexivity].
Qed.

(** When every remaining attempt raises, the loop runs all of them, sleeps
    after each one that is not the last allowed, and returns the empty
    list. *)
Lemma retry_loop_all_raise (net : network) (employer_id retries : Z) :
  forall (attempts : list Z) (w : net_world),
    (forall i, (i < List.length attempts)%nat ->
       attempt_raises (net (requests_made w + i)%nat (GetVacancies employer_id))
       = true) ->
    let '(v, w') := retry_loop net employer_id retries attempts w in
    v = PList [] /\
    requests_made w' = (requests_made w + List.length attempts)%nat /\
    timeline (history w')
    = timeline (history w)
      ++ flat_map (failed_attempt employer_id retries) attempts.
Proof.
  induction attempts as [|attempt rest IH]; intros w Hall; simpl.
  - repeat split; [lia | rewrite app_nil_r; reflexivity].
  - destruct (get_vacancies_raises net employer_id w) as [e He].
    { specialize (Hall 0%nat). rewrite Nat.add_0_r in Hall.
      apply Hall. simpl. lia. }
    rewrite He.
    assert (Hrest : forall w1, requests_made w1 = S (requests_made w) ->
              forall i, (i < List.length rest)%nat ->
                attempt_raises
                  (net (requests_made w1 + i)%nat (GetVacancies employer_id))
                = true).
    { intros w1 Hw1 i Hi. rewrite Hw1.
      replace (S (requests_made w) + i)%nat with (requests_made w + S i)%nat
        by lia.
      apply Hall. simpl. lia. }
    unfold failed_attempt at 1.
    destruct (attempt <? retries).
    + match goal with
      | |- context [retry_loop _ _ _ _ ?w1] =>
          specialize (IH w1 (Hrest w1 eq_refl))
      end.
      destruct (retry_loop net employer_id retries rest _) as [v w'].
      destruct IH as (Hv & Hn & Ht). repeat split; [exact Hv | | ].
      * rewrite Hn. simpl. lia.
      * rewrite Ht. simpl. rewrite !timeline_app. simpl.
        rewrite <- !app_assoc. reflexivity.
    + match goal with
      | |- context [retry_loop _ _ _ _ ?w1] =>
          specialize (IH w1 (Hrest w1 eq_refl))
      end.
      destruct (retry_loop net employer_id retries rest _) as [v w'].
      destruct IH as (Hv & Hn & Ht). repeat split; [exact Hv | | ].
      * rewrite Hn. simpl. lia.
      * rewrite Ht. simpl. rewrite !timeline_app. simpl.
        rewrite <- !app_assoc. reflexivity.
Qed.

(** The outcome of an attempt depends on the number of requests made so far
    and on nothing else in the world. *)
Lemma get_vacancies_outcome (net : network) (employer_id : Z) (w : net_world) :
  get_vacancies net employer_id w
  = (fst (get_vacancies net employer_id (mkNet (requests_made w) [])),
     mkNet (S (requests_made w))
           (history w ++ [Requested (GetVacancies employer_id)])).
Proof.
  unfold get_vacancies, requests_get; simpl.
  destruct (net (requests_made w) (GetVacancies employer_id))
    as [|status_code body]; [reflexivity|].
  destruct (status_code =? 200); [|reflexivity].
  destruct (response_json body) as [v|e]; [|reflexivity].
  destruct v; reflexivity.
Qed.

(** When the first [m] attempts raise and the next one returns [v], the loop
    returns [v] after [m + 1] requests, having slept after each failure. *)
Lemma retry_loop_returns (net : network) (employer_id retries : Z) :
  forall (attempts : list Z) (w : net_world) (m : nat) (v : pyval),
    (m < List.length attempts)%nat ->
    (forall i, (i < m)%nat ->
       attempt_raises (net (requests_made w + i)%nat (GetVacancies employer_id))
       = true) ->
    fst (get_vacancies net employer_id (mkNet (requests_made w + m) []))
    = Returned v ->
    let '(r, w') := retry_loop net employer_id retries attempts w in
    r = v /\
    requests_made w' = (requests_made w + m + 1)%nat /\
    timeline (history w')
    = timeline (history w)
      ++ flat_map (failed_attempt employer_id retries) (firstn m attempts)
      ++ [Requested (GetVacancies employer_id)].
Proof.
  induction attempts as [|attempt rest IH]; intros w m v Hm Hraise Hret;
    simpl in Hm; [lia|].
  destruct m as [|m].
  - simpl. rewrite get_vacancies_outcome.
    rewrite Nat.add_0_r in Hret. rewrite Hret. simpl.
    repeat split; [lia|]. rewrite timeline_app. reflexivity.
  - destruct (get_vacancies_raises net employer_id w) as [e He].
    { specialize (Hraise 0%nat). rewrite Nat.add_0_r in Hraise.
      apply Hraise. lia. }
    cbn [retry_loop firstn flat_map]. rewrite He.
    assert (Hstep : forall w1, requests_made w1 = S (requests_made w) ->
              let '(r, w') := retry_loop net employer_id retries rest w1 in
              r = v /\
              requests_made w' = (requests_made w1 + m + 1)%nat /\
              timeline (history w')
              = timeline (history w1)
                ++ flat_map (failed_attempt employer_id retries) (firstn m rest)
                ++ [Requested (GetVacancies employer_id)]).
    { intros w1 Hw1. apply IH; [lia | |].
      - intros i Hi. rewrite Hw1.
        replace (S (requests_made w) + i)%nat with (requests_made w + S i)%nat
          by lia.
        apply Hraise. lia.
      - rewrite Hw1.
        replace (S (requests_made w) + m)%nat with (requests_made w + S m)%nat
          by lia.
        exact Hret. }
    unfold failed_attempt at 1.
    destruct (attempt <? retries).
    + match goal with
      | |- context [retry_loop _ _ _ _ ?w1] => specialize (Hstep w1 eq_refl)
      end.
      destruct (retry_loop net employer_id retries rest _) as [r w'].
      destruct Hstep as (Hv & Hn & Ht). repeat split; [exact Hv | | ].
      * rewrite Hn. simpl. lia.
      * rewrite Ht. simpl. rewrite !timeline_app. simpl.
        rewrite <- !app_assoc. reflexivity.
    + match goal with
      | |- context [retry_loop _ _ _ _ ?w1] => specialize (Hstep w1 eq_refl)
      end.
      destruct (retry_loop net employer_id retries rest _) as [r w'].
      destruct Hstep as (Hv & Hn & Ht). repeat split; [exact Hv | | ].
      * rewrite Hn. simpl. lia.
      * rewrite Ht. simpl. rewrite !timeline_app. simpl.
        rewrite <- !app_assoc. reflexivity.
Qed.

Lemma range_length (n : Z) : List.length (range n) = Z.to_nat n.
Proof. unfold range. rewrite length_map, length_seq. reflexivity. Qed.

(** C2, as stated, fails: for the specification a response that is not a
    success is a failed attempt, but [get_vacancies] answers it with an empty
    list and the loop stops.  Four 503 answers cost one request, not four;
    and after 503, 503, 200 the result is the empty list of the first
    answer, not the vacancies of the third. *)
Lemma retry_policy_not_as_specified : ~ retry_policy_as_specified.
Proof.
  intros H.
  destruct (H net_unavailable 1740) as (Hall & _).
  specialize (Hall (fun _ _ => eq_refl)).
  vm_compute in Hall. destruct Hall as (_ & Hcount & _). discriminate Hcount.
Qed.

Example retry_stops_at_first_non_success :
  fst (get_vacancies_with_retry net_recovering 1740 3 net_start) = PList [] /\
  requests_made (snd (get_vacancies_with_retry net_recovering 1740 3 net_start))
  = 1%nat.
Proof. split; reflexivity. Qed.

(** C2, amended: a failed attempt is one in which the call raises.  With
    [retries = 3] and any employer id: attempt 0 is made at once and
    retry [k] is preceded by a sleep of [2^(k-1)] seconds; when all four
    attempts raise, exactly four requests are made and the empty list is
    returned (the function has no exceptional result); when the first two
    attempts raise and the third returns [v], the result is [v] and the time
    slept is [2^0 + 2^1]. *)
Theorem retry_policy_three (net : network) (employer_id : Z) :
  ((forall i, (i < 4)%nat ->
      attempt_raises (net i (GetVacancies employer_id)) = true) ->
   let '(v, w) := get_vacancies_with_retry net employer_id 3 net_start in
   v = PList [] /\
   requests_made w = 4%nat /\
   timeline (history w)
   = [Requested (GetVacancies employer_id); Slept (2 ^ 0);
      Requested (GetVacancies employer_id); Slept (2 ^ 1);
      Requested (GetVacancies employer_id); Slept (2 ^ 2);
      Requested (GetVacancies employer_id)])
  /\
  (forall v,
     attempt_raises (net 0%nat (GetVacancies employer_id)) = true ->
     attempt_raises (net 1%nat (GetVacancies employer_id)) = true ->
     fst (get_vacancies net employer_id (mkNet 2 [])) = Returned v ->
     let '(r, w) := get_vacancies_with_retry net employer_id 3 net_start in
     r = v /\
     requests_made w = 3%nat /\
     timeline (history w)
     = [Requested (GetVacancies employer_id); Slept (2 ^ 0);
        Requested (GetVacancies employer_id); Slept (2 ^ 1);
        Requested (GetVacancies employer_id)] /\
     total (sleeps (history w)) = 2 ^ 0 + 2 ^ 1).
Proof.
  split.
  - intros Hall.
    pose proof (retry_loop_all_raise net employer_id 3 (range (3 + 1)) net_start)
      as H.
    unfold get_vacancies_with_retry.
    destruct (retry_loop net employer_id 3 (range (3 + 1)) net_start) as [v w].
    apply H. intros i Hi. simpl in *. apply Hall. exact Hi.
  - intros v H0 H1 Hret.
    pose proof (retry_loop_returns net employer_id 3 (range (3 + 1)) net_start
                  2%nat v) as H.
    unfold get_vacancies_with_retry.
    destruct (retry_loop net employer_id 3 (range (3 + 1)) net_start) as [r w].
    destruct H as (Hv & Hn & Ht).
    + simpl. lia.
    + intros i Hi. simpl.
      destruct i as [|[|i]]; [exact H0 | exact H1 | lia].
    + exact Hret.
    + repeat split; [exact Hv | exact Hn | exact Ht |].
      rewrite <- sleeps_timeline, Ht. reflexivity.
Qed.

(** A witness for C2: a remote side that fails for every request, and one
    that fails twice and then answers with one vacancy. *)
Lemma retry_policy_three_witness :
  (let '(v, w) :=
     get_vacancies_with_retry (fun _ _ => ConnectionFailed) 1740 3 net_start in
   v = PList [] /\ requests_made w = 4%nat /\
   timeline (history w)
   = [Requested (GetVacancies 1740); Slept 1;
      Requested (GetVacancies 1740); Slept 2;
      Requested (GetVacancies 1740); Slept 4;
      Requested (GetVacancies 1740)])
  /\
  (let net : network :=
     fun n _ => if (n <? 2)%nat then ConnectionFailed
                else Response 200 (Some (PDict [("items", PList [PInt 7])])) in
   let '(r, w) := get_vacancies_with_retry net 1740 3 net_start in
   r = PList [PInt 7] /\ total (sleeps (history w)) = 3).
Proof.
  split.
  - apply (proj1 (retry_policy_three (fun _ _ => ConnectionFailed) 1740)).
    intros i _. reflexivity.
  - pose proof (proj2 (retry_policy_three
                  (fun n _ => if (n <? 2)%nat then ConnectionFailed
                              else Response 200
                                     (Some (PDict [("items", PList [PInt 7])])))
                  1740) (PList [PInt 7]) eq_refl eq_refl eq_refl) as H.
    cbv zeta.
    destruct (get_vacancies_with_retry _ 1740 3 net_start) as [r w].
    destruct H as (Hr & _ & _ & Hs). split; [exact Hr | exact Hs].
Defined.

(** C3, as stated, fails: a response with status 503 is a failure for the
    specification, yet [get_vacancies] turns it into an empty list, so the
    loop returns after one request and never retries. *)
Lemma non_success_is_not_retried : ~ every_failure_is_retried.
Proof.
  intros H.
  specialize (H net_unavailable 1740 3 net_start eq_refl eq_refl).
  vm_compute in H. lia.
Qed.

(** C3, amended.  With [retries >= 0] allowed retries: an attempt that
    raises (the call could not be completed, or a 200 response whose body is
    not a JSON object) is retried, so that [m <= retries] raising attempts
    followed by a returning one cost [m + 1] requests and give the returned
    value, and [retries + 1] raising attempts give the empty list; a
    response that is not a success is not retried, the empty list is
    returned at once. *)
Theorem raised_failures_are_retried
  (net : network) (employer_id retries : Z) (w : net_world) :
  0 <= retries ->
  (forall (m : nat) (v : pyval),
     (m <= Z.to_nat retries)%nat ->
     (forall i, (i < m)%nat ->
        attempt_raises (net (requests_made w + i)%nat (GetVacancies employer_id))
        = true) ->
     fst (get_vacancies net employer_id (mkNet (requests_made w + m) []))
     = Returned v ->
     let '(r, w') := get_vacancies_with_retry net employer_id retries w in
     r = v /\ requests_made w' = (requests_made w + m + 1)%nat)
  /\
  ((forall i, (i <= Z.to_nat retries)%nat ->
      attempt_raises (net (requests_made w + i)%nat (GetVacancies employer_id))
      = true) ->
   let '(r, w') := get_vacancies_with_retry net employer_id retries w in
   r = PList [] /\
   requests_made w' = (requests_made w + Z.to_nat retries + 1)%nat)
  /\
  (forall status_code body,
     net (requests_made w) (GetVacancies employer_id)
     = Response status_code body ->
     status_code <> 200 ->
     get_vacancies_with_retry net employer_id retries w
     = (PList [],
        mkNet (S (requests_made w))
              (history w ++ [Requested (GetVacancies employer_id)]))).
Proof.
  intros Hretries.
  assert (Hlen : List.length (range (retries + 1)) = S (Z.to_nat retries)).
  { rewrite range_length. lia. }
  unfold get_vacancies_with_retry. split; [|split].
  - intros m v Hm Hraise Hret.
    pose proof (retry_loop_returns net employer_id retries
                  (range (retries + 1)) w m v) as H.
    destruct (retry_loop net employer_id retries (range (retries + 1)) w)
      as [r w'].
    destruct H as (Hv & Hn & _); [lia | exact Hraise | exact Hret |].
    split; assumption.
  - intros Hall.
    pose proof (retry_loop_all_raise net employer_id retries
                  (range (retries + 1)) w) as H.
    destruct (retry_loop net employer_id retries (range (retries + 1)) w)
      as [r w'].
    destruct H as (Hv & Hn & _).
    + intros i Hi. apply Hall. lia.
    + split; [exact Hv | lia].
  - intros status_code body Hnet Hst.
    destruct (range (retries + 1)) as [|attempt rest] eqn:Hrange;
      [simpl in Hlen; lia|].
    simpl.
    rewrite (get_vacancies_non_success net employer_id w status_code body Hnet Hst).
    reflexivity.
Qed.

(** A witness for the amended C3: one retry allowed, a remote side that
    fails once and then answers 503. *)
Lemma raised_failures_are_retried_witness :
  let net : network :=
    fun n _ => match n with O => ConnectionFailed | _ => Response 503 None end in
  let '(r, w') := get_vacancies_with_retry net 1740 1 net_start in
  r = PList [] /\ requests_made w' = 2%nat.
Proof.
  cbv zeta.
  pose proof (proj1 (raised_failures_are_retried
                (fun n _ => match n with
                            | O => ConnectionFailed
                            | _ => Response 503 None
                            end) 1740 1 net_start ltac:(lia))
                1%nat (PList []) ltac:(simpl; lia)) as H.
  destruct (get_vacancies_with_retry _ 1740 1 net_start) as [r w'].
  apply H.
  - intros i Hi. destruct i; [reflexivity | lia].
  - reflexivity.
Defined.

(** ** Validation *)

Lemma check_fields_true (fields : list string) (vacancy : dict) (s : session) :
  forallb (dict_has vacancy) fields = true ->
  check_fields fields vacancy s = (true, s).
Proof.
  induction fields as [|field rest IH]; simpl; [reflexivity|].
  intros H. apply andb_true_iff in H as [Hf Hrest].
  rewrite Hf. simpl. apply IH. exact Hrest.
Qed.

Lemma check_fields_false (fields : list string) (vacancy : dict) (s : session) :
  forallb (dict_has vacancy) fields = false ->
  exists field,
    In field fields /\ dict_has vacancy field = false /\
    check_fields fields vacancy s
    = (false,
       logging (WarnMissingField field (get_or vacancy "id" (PStr "N/A"))) s).
Proof.
  induction fields as [|field rest IH]; simpl; [discriminate|].
  destruct (dict_has vacancy field) eqn:Hf; simpl.
  - intros H. destruct (IH H) as (f & Hin & Hmiss & Heq).
    exists f. auto.
  - intros _. exists field. auto.
Qed.

(** [validate_data] answers [True] exactly when the three keys are present;
    it reads no value. *)
Lemma validate_data_answer (vacancy : dict) (s : session) :
  fst (validate_data vacancy s) = has_required_fields vacancy.
Proof.
  unfold validate_data, has_required_fields.
  destruct (forallb (dict_has vacancy) required_fields) eqn:H.
  - rewrite (check_fields_true _ _ _ H). reflexivity.
  - destruct (check_fields_false _ _ s H) as (f & _ & _ & Heq).
    rewrite Heq. reflexivity.
Qed.

Lemma has_required_fields_iff (vacancy : dict) :
  has_required_fields vacancy = true <->
  dict_has vacancy "id" = true /\ dict_has vacancy "name" = true /\
  dict_has vacancy "employer" = true.
Proof.
  unfold has_required_fields, required_fields. simpl.
  rewrite !andb_true_iff. tauto.
Qed.

(** ** The effect of the inserting loops *)

Lemma cursor_execute_effect {D : Driver} (st : statement) (s : session) :
  let '(_, s') := cursor_execute st s in
  committed s' = committed s /\
  executed s' = executed s ++ [st] /\
  app_log s' = app_log s /\
  (working s', tx_failed s') = exec_db st (working s) (tx_failed s).
Proof.
  unfold cursor_execute, exec_db.
  destruct (client_rejects st); simpl; [auto|].
  destruct (tx_failed s) eqn:Hf; simpl; [rewrite ?Hf; auto|].
  destruct (run_statement st (working s)); simpl; rewrite ?Hf; auto.
Qed.

Lemma run_batch_app {D : Driver} (a b : list statement) :
  forall (w : database) (f : bool),
    run_batch (a ++ b) w f
    = let '(w1, f1) := run_batch a w f in run_batch b w1 f1.
Proof.
  induction a as [|st a IH]; intros w f; simpl; [reflexivity|].
  destruct (exec_db st w f) as [w1 f1]. apply IH.
Qed.

Lemma insert_employer_effect {D : Driver} (employer : dict) (s : session) :
  let s' := insert_employer employer s in
  committed s' = committed s /\
  executed s' = executed s ++ [employer_statement employer] /\
  (working s', tx_failed s')
  = exec_db (employer_statement employer) (working s) (tx_failed s).
Proof.
  unfold insert_employer. fold (employer_statement employer).
  pose proof (cursor_execute_effect (employer_statement employer) s) as H.
  destruct (cursor_execute (employer_statement employer) s) as [[|] s1];
    simpl; tauto.
Qed.

Lemma insert_vacancy_effect {D : Driver} (vacancy : dict) (s : session) :
  let s' := insert_vacancy vacancy s in
  committed s' = committed s /\
  executed s' = executed s ++ vacancy_statement vacancy /\
  (working s', tx_failed s')
  = run_batch (vacancy_statement vacancy) (working s) (tx_failed s).
Proof.
  unfold insert_vacancy, vacancy_statement, validate_data, has_required_fields.
  destruct (forallb (dict_has vacancy) required_fields) eqn:Hv.
  - rewrite (check_fields_true _ _ _ Hv). unfold try_insert_vacancy.
    destruct (get_or vacancy "employer" (PDict [])) as [| | | | | |employer];
      simpl; rewrite ?app_nil_r; auto.
    pose proof (cursor_execute_effect
                  (InsertVacancy (vacancy_insert_params vacancy employer)) s)
      as H.
    destruct (cursor_execute _ s) as [[|] s1]. simpl in *.
    + destruct (exec_db _ (working s) (tx_failed s)); tauto.
    + simpl in *. destruct (exec_db _ (working s) (tx_failed s)); tauto.
  - destruct (check_fields_false _ _ s Hv) as (f & _ & _ & Heq).
    rewrite Heq. simpl. rewrite app_nil_r. auto.
Qed.

Lemma insert_employers_loop_effect {D : Driver} (data : list dict) :
  forall s : session,
    let s' := insert_employers_loop data s in
    committed s' = committed s /\
    executed s' = executed s ++ map employer_statement data /\
    (working s', tx_failed s')
    = run_batch (map employer_statement data) (working s) (tx_failed s).
Proof.
  induction data as [|employer rest IH]; intros s; simpl.
  - rewrite app_nil_r. auto.
  - destruct (insert_employer_effect employer s) as (Hc & He & Hw).
    destruct (IH (insert_employer employer s)) as (Hc' & He' & Hw').
    rewrite Hc', He', Hw', Hc, He, <- Hw, <- app_assoc. auto.
Qed.

Lemma insert_vacancies_loop_effect {D : Driver} (data : list dict) :
  forall s : session,
    let s' := insert_vacancies_loop data s in
    committed s' = committed s /\
    executed s' = executed s ++ flat_map vacancy_statement data /\
    (working s', tx_failed s')
    = run_batch (flat_map vacancy_statement data) (working s) (tx_failed s).
Proof.
  induction data as [|vacancy rest IH]; intros s; simpl.
  - rewrite app_nil_r. auto.
  - destruct (insert_vacancy_effect vacancy s) as (Hc & He & Hw).
    destruct (IH (insert_vacancy vacancy s)) as (Hc' & He' & Hw').
    rewrite Hc', He', Hw', Hc, He, <- app_assoc, run_batch_app, <- Hw. auto.
Qed.

(** ** Validation inside a batch *)

Lemma commit_fields (s1 s2 : session) :
  committed s1 = committed s2 -> working s1 = working s2 ->
  tx_failed s1 = tx_failed s2 -> executed s1 = executed s2 ->
  committed (commit s1) = committed (commit s2) /\
  working (commit s1) = working (commit s2) /\
  tx_failed (commit s1) = tx_failed (commit s2) /\
  executed (commit s1) = executed (commit s2).
Proof.
  intros Hc Hw Hf He. unfold commit. rewrite Hf.
  destruct (tx_failed s2); simpl; auto.
Qed.

Lemma missing_field_not_required (vacancy : dict) :
  dict_has vacancy "id" = false \/ dict_has vacancy "name" = false \/
  dict_has vacancy "employer" = false ->
  has_required_fields vacancy = false.
Proof.
  intros H. destruct (has_required_fields vacancy) eqn:Hv; [|reflexivity].
  apply has_required_fields_iff in Hv. destruct Hv as (H1 & H2 & H3).
  destruct H as [H|[H|H]]; congruence.
Qed.

(** C4. A vacancy record lacking [id], [name] or [employer] fails
    validation; its iteration issues no statement and leaves the transaction
    as it was; and a batch containing it issues the statements and stores the
    rows of the same batch without it, so the records around it are
    processed as usual. *)
Theorem invalid_vacancy_is_dropped {D : Driver} (vacancy : dict) :
  dict_has vacancy "id" = false \/ dict_has vacancy "name" = false \/
  dict_has vacancy "employer" = false ->
  (forall s, fst (validate_data vacancy s) = false) /\
  (forall s,
     executed (insert_vacancy vacancy s) = executed s /\
     working (insert_vacancy vacancy s) = working s /\
     committed (insert_vacancy vacancy s) = committed s /\
     tx_failed (insert_vacancy vacancy s) = tx_failed s) /\
  (forall before after s,
     executed (insert_vacancies (before ++ vacancy :: after) s)
     = executed (insert_vacancies (before ++ after) s) /\
     committed (insert_vacancies (before ++ vacancy :: after) s)
     = committed (insert_vacancies (before ++ after) s)).
Proof.
  intros Hmiss. apply missing_field_not_required in Hmiss.
  assert (Hst : vacancy_statement vacancy = []).
  { unfold vacancy_statement. rewrite Hmiss. reflexivity. }
  split; [|split].
  - intros s. rewrite validate_data_answer. exact Hmiss.
  - intros s. destruct (insert_vacancy_effect vacancy s) as (Hc & He & Hw).
    rewrite Hst in He, Hw. rewrite app_nil_r in He. simpl in Hw.
    inversion Hw. auto.
  - intros before after s. unfold insert_vacancies.
    destruct (insert_vacancies_loop_effect (before ++ vacancy :: after) s)
      as (Hc1 & He1 & Hw1).
    destruct (insert_vacancies_loop_effect (before ++ after) s)
      as (Hc2 & He2 & Hw2).
    assert (Hflat : flat_map vacancy_statement (before ++ vacancy :: after)
                    = flat_map vacancy_statement (before ++ after)).
    { rewrite !flat_map_app. simpl. rewrite Hst. reflexivity. }
    rewrite Hflat in He1, Hw1. rewrite <- Hw2 in Hw1. inversion Hw1.
    destruct (commit_fields (insert_vacancies_loop (before ++ vacancy :: after) s)
                (insert_vacancies_loop (before ++ after) s))
      as (Hcc & _ & _ & Hee); try congruence.
    split; assumption.
Qed.

(** A witness for C4: a record without [name] between two complete ones. *)
Lemma invalid_vacancy_is_dropped_witness :
  let good1 := [("id", PInt 1); ("name", PStr "a"); ("employer", PDict [])] in
  let bad := [("id", PInt 2); ("employer", PDict [])] in
  let good2 := [("id", PInt 3); ("name", PStr "c"); ("employer", PDict [])] in
  fst (validate_data bad (connect empty_db)) = false /\
  committed (insert_vacancies (D := example_driver)
               ([good1] ++ bad :: [good2]) (connect empty_db))
  = committed (insert_vacancies (D := example_driver)
                 ([good1] ++ [good2]) (connect empty_db)).
Proof.
  cbv zeta.
  destruct (invalid_vacancy_is_dropped (D := example_driver)
              [("id", PInt 2); ("employer", PDict [])])
    as (Hv & _ & Hb).
  - right. left. reflexivity.
  - split; [apply Hv | apply Hb].
Defined.

(** C9. A vacancy record holding the three keys passes validation whatever
    their values are, [None] included: the loop does not skip it but enters
    the inserting [try] block.  When the value under [employer] is a
    dictionary the insert statement is issued with the values as they are;
    otherwise building the parameters raises inside the [try] block and the
    failed insertion is logged. *)
Theorem validation_reads_no_value {D : Driver} (vacancy : dict) :
  dict_has vacancy "id" = true ->
  dict_has vacancy "name" = true ->
  dict_has vacancy "employer" = true ->
  (forall s, validate_data vacancy s = (true, s)) /\
  (forall s, insert_vacancy vacancy s = try_insert_vacancy vacancy s) /\
  (forall s employer,
     dict_get vacancy "employer" = Some (PDict employer) ->
     executed (insert_vacancy vacancy s)
     = executed s ++ [InsertVacancy (vacancy_insert_params vacancy employer)]) /\
  (forall s v,
     dict_get vacancy "employer" = Some v ->
     isinstance_dict v = false ->
     insert_vacancy vacancy s
     = logging (ErrInsertVacancy (get_or vacancy "id" (PStr "N/A"))) s).
Proof.
  intros Hid Hname Hemp.
  assert (Hv : has_required_fields vacancy = true).
  { apply has_required_fields_iff. auto. }
  assert (Hval : forall s, validate_data vacancy s = (true, s)).
  { intros s. apply check_fields_true. exact Hv. }
  split; [exact Hval|]. split; [|split].
  - intros s. unfold insert_vacancy. rewrite Hval. reflexivity.
  - intros s employer Hget.
    destruct (insert_vacancy_effect vacancy s) as (_ & He & _).
    rewrite He. unfold vacancy_statement, get_or. rewrite Hv, Hget.
    reflexivity.
  - intros s v Hget Hnd. unfold insert_vacancy. rewrite Hval.
    unfold try_insert_vacancy. unfold get_or at 1. rewrite Hget.
    destruct v; simpl in Hnd; try discriminate; reflexivity.
Qed.

(** A witness for C9: every required key holds [None] or an empty object. *)
Lemma validation_reads_no_value_witness :
  let vacancy := [("id", PNone); ("name", PNone); ("employer", PDict [])] in
  validate_data vacancy (connect empty_db) = (true, connect empty_db) /\
  executed (insert_vacancy (D := example_driver) vacancy (connect empty_db))
  = [InsertVacancy (PNone, PNone, PNone, PNone, PNone, PNone, PStr "")].
Proof.
  cbv zeta.
  destruct (validation_reads_no_value (D := example_driver)
              [("id", PNone); ("name", PNone); ("employer", PDict [])]
              eq_refl eq_refl eq_refl) as (Hv & _ & He & _).
  split; [apply Hv | apply (He (connect empty_db) [] eq_refl)].
Defined.

(** ** A salary that is not an object *)

Lemma dict_get_remove_other (d : dict) (k k' : string) :
  k <> k' -> dict_get (dict_remove d k) k' = dict_get d k'.
Proof.
  intros Hne. induction d as [|[k0 v] rest IH]; simpl; [reflexivity|].
  destruct (String.eqb_spec k0 k) as [->|Hk0].
  - destruct (String.eqb_spec k k'); [contradiction|exact IH].
  - simpl. rewrite IH. reflexivity.
Qed.

Lemma dict_get_remove_same (d : dict) (k : string) :
  dict_get (dict_remove d k) k = None.
Proof.
  induction d as [|[k0 v] rest IH]; simpl; [reflexivity|].
  destruct (String.eqb_spec k0 k) as [->|Hk0]; [exact IH|].
  simpl. destruct (String.eqb_spec k0 k); [contradiction|exact IH].
Qed.

Lemma get_or_remove_other (d : dict) (k k' : string) (default : pyval) :
  k <> k' -> get_or (dict_remove d k) k' default = get_or d k' default.
Proof. intros H. unfold get_or. rewrite dict_get_remove_other; auto. Qed.

Lemma dict_has_remove_other (d : dict) (k k' : string) :
  k <> k' -> dict_has (dict_remove d k) k' = dict_has d k'.
Proof. intros H. unfold dict_has. rewrite dict_get_remove_other; auto. Qed.

(** The three salary parameters are [None] when the salary is no object. *)
Lemma vacancy_insert_params_malformed (vacancy employer : dict) (salary : pyval) :
  dict_get vacancy "salary" = Some salary ->
  isinstance_dict salary = false ->
  vacancy_insert_params vacancy employer
  = (get_or vacancy "id" PNone, get_or vacancy "name" (PStr ""),
     PNone, PNone, PNone,
     get_or employer "id" PNone, get_or vacancy "alternate_url" (PStr "")).
Proof.
  intros Hget Hnd. unfold vacancy_insert_params.
  replace (get_or vacancy "salary" (PDict [])) with salary
    by (unfold get_or; rewrite Hget; reflexivity).
  destruct salary; simpl in Hnd; try discriminate; reflexivity.
Qed.

(** A row built from [None] salary parameters stores [NULL] in the three
    salary columns. *)
Lemma vacancy_row_of_null_salary {D : Driver}
  (id title employer_id url : pyval) (r : vacancy_row) :
  vacancy_row_of (id, title, PNone, PNone, PNone, employer_id, url) = RowOk r ->
  v_salary_from r = None /\ v_salary_to r = None /\ v_currency r = None.
Proof.
  unfold vacancy_row_of. cbn [bind_int4 bind_varchar].
  destruct (bind_int4 id), (bind_varchar 255 title), (bind_int4 employer_id),
    (bind_varchar 255 url); simpl; intros H; inversion H; subst; simpl; auto.
Qed.

(** C5. A vacancy record that passes validation and whose [salary] is
    present but is not a dictionary is handled exactly as the same record
    without a salary: it is not rejected for it.  Whenever the store accepts
    the record (open transaction, well-formed row, fresh [vacancy_id],
    employer reference satisfied), the row is added and committed with
    [salary_from], [salary_to] and [currency] all [NULL]. *)
Theorem malformed_salary_is_absent {D : Driver}
  (vacancy : dict) (salary : pyval) :
  has_required_fields vacancy = true ->
  dict_get vacancy "salary" = Some salary ->
  isinstance_dict salary = false ->
  (forall s,
     insert_vacancy vacancy s = insert_vacancy (dict_remove vacancy "salary") s) /\
  (forall s employer r,
     dict_get vacancy "employer" = Some (PDict employer) ->
     tx_failed s = false ->
     vacancy_row_of (vacancy_insert_params vacancy employer) = RowOk r ->
     has_vacancy (v_vacancy_id r) (vacancies (working s)) = false ->
     references_ok r (working s) = true ->
     vacancies (committed (insert_vacancies [vacancy] s))
     = vacancies (working s) ++ [r] /\
     v_salary_from r = None /\ v_salary_to r = None /\ v_currency r = None).
Proof.
  intros Hv Hget Hnd. split.
  - intros s.
    assert (Hv' : has_required_fields (dict_remove vacancy "salary") = true).
    { apply has_required_fields_iff in Hv. apply has_required_fields_iff.
      rewrite !dict_has_remove_other by discriminate. exact Hv. }
    unfold insert_vacancy, validate_data.
    rewrite (check_fields_true _ _ _ Hv), (check_fields_true _ _ _ Hv').
    unfold try_insert_vacancy.
    rewrite !get_or_remove_other by discriminate.
    destruct (get_or vacancy "employer" (PDict [])); try reflexivity.
    rewrite (vacancy_insert_params_malformed _ _ _ Hget Hnd).
    unfold vacancy_insert_params.
    replace (get_or (dict_remove vacancy "salary") "salary" (PDict []))
      with (PDict [])
      by (unfold get_or; rewrite dict_get_remove_same; reflexivity).
    rewrite !get_or_remove_other by discriminate.
    reflexivity.
  - intros s employer r Hemp Hok Hrow Hfresh Href.
    split.
    + unfold insert_vacancies.
      destruct (insert_vacancies_loop_effect [vacancy] s) as (Hc & _ & Hw).
      simpl flat_map in Hw. rewrite app_nil_r in Hw.
      unfold vacancy_statement, get_or in Hw. rewrite Hv, Hemp in Hw.
      cbn [run_batch] in Hw.
      unfold exec_db, client_rejects, run_statement in Hw.
      rewrite Hrow, Hok in Hw.
      unfold insert_vacancy_row in Hw. rewrite Hfresh, Href in Hw.
      change (insert_vacancies_loop [vacancy] s)
        with (insert_vacancy vacancy s) in *.
      injection Hw as Hw1 Hw2. unfold commit. rewrite Hw2. simpl.
      rewrite Hw1. reflexivity.
    + rewrite (vacancy_insert_params_malformed _ _ _ Hget Hnd) in Hrow.
      exact (vacancy_row_of_null_salary _ _ _ _ _ Hrow).
Qed.

(** A witness for C5: the salary is a string. *)
Lemma malformed_salary_is_absent_witness :
  let vacancy := [("id", PInt 10); ("name", PStr "dev");
                  ("employer", PDict []); ("salary", PStr "n/a")] in
  vacancies (committed (insert_vacancies (D := example_driver) [vacancy]
                          (connect empty_db)))
  = [mkVacancy 10 "dev" None None None None (Some "")].
Proof.
  cbv zeta.
  destruct (malformed_salary_is_absent (D := example_driver)
              [("id", PInt 10); ("name", PStr "dev");
               ("employer", PDict []); ("salary", PStr "n/a")]
              (PStr "n/a") eq_refl eq_refl eq_refl) as (_ & H).
  destruct (H (connect empty_db) [] (mkVacancy 10 "dev" None None None None (Some ""))
              eq_refl eq_refl eq_refl eq_refl eq_refl) as (Hrows & _).
  exact Hrows.
Defined.

(** ** Tables only grow *)

Lemma grows_refl (db : database) : grows db db.
Proof. split; auto. Qed.

Lemma grows_trans (a b c : database) : grows a b -> grows b c -> grows a c.
Proof. intros [H1 H2] [H3 H4]. split; auto. Qed.

Lemma has_employer_app (k : Z) (t1 t2 : list employer_row) :
  has_employer k (t1 ++ t2) = has_employer k t1 || has_employer k t2.
Proof. unfold has_employer. apply existsb_app. Qed.

Lemma has_vacancy_app (k : Z) (t1 t2 : list vacancy_row) :
  has_vacancy k (t1 ++ t2) = has_vacancy k t1 || has_vacancy k t2.
Proof. unfold has_vacancy. apply existsb_app. Qed.

Lemma insert_employer_row_grows (r : employer_row) (db : database) :
  grows db (insert_employer_row r db).
Proof.
  unfold insert_employer_row.
  destruct (has_employer (e_employer_id r) (employers db));
    [apply grows_refl|].
  split; simpl; auto. intros k Hk. rewrite has_employer_app, Hk. reflexivity.
Qed.

Lemma insert_vacancy_row_grows (r : vacancy_row) (db db' : database) :
  insert_vacancy_row r db = Some db' -> grows db db'.
Proof.
  unfold insert_vacancy_row.
  destruct (has_vacancy (v_vacancy_id r) (vacancies db)).
  - intros H. inversion H. apply grows_refl.
  - destruct (references_ok r db); [|discriminate].
    intros H. inversion H. split; simpl; auto.
    intros k Hk. rewrite has_vacancy_app, Hk. reflexivity.
Qed.

Lemma run_statement_grows {D : Driver} (st : statement) (db db' : database) :
  run_statement st db = RowOk db' -> grows db db'.
Proof.
  destruct st as [p|p]; simpl.
  - destruct (employer_row_of p); try discriminate.
    intros H. inversion H. apply insert_employer_row_grows.
  - destruct (vacancy_row_of p) as [r| |]; try discriminate.
    destruct (insert_vacancy_row r db) eqn:Hins; try discriminate.
    intros H. inversion H. subst. eapply insert_vacancy_row_grows; eauto.
Qed.

Lemma exec_db_grows {D : Driver} (st : statement) (w w' : database)
  (f f' : bool) :
  exec_db st w f = (w', f') -> grows w w'.
Proof.
  unfold exec_db.
  destruct (client_rejects st);
    [intros H; inversion H; apply grows_refl|].
  destruct f; [intros H; inversion H; apply grows_refl|].
  destruct (run_statement st w) eqn:Hrun; intros H; inversion H; subst;
    try apply grows_refl.
  eapply run_statement_grows; eauto.
Qed.

Lemma run_batch_grows {D : Driver} (sts : list statement) :
  forall (w w' : database) (f f' : bool),
    run_batch sts w f = (w', f') -> grows w w'.
Proof.
  induction sts as [|st rest IH]; intros w w' f f'; simpl.
  - intros H. inversion H. apply grows_refl.
  - destruct (exec_db st w f) as [w1 f1] eqn:Hst. intros H.
    eapply grows_trans; [eapply exec_db_grows; eauto | eapply IH; eauto].
Qed.

Lemma batch_grows {D : Driver} (sts : list statement) (db : database) :
  grows db (batch sts db).
Proof.
  unfold batch. destruct (run_batch sts db false) as [w f] eqn:H.
  destruct f; [apply grows_refl | eapply run_batch_grows; eauto].
Qed.

Lemma present_grows {D : Driver} (st : statement) (a b : database) :
  grows a b -> present st a = true -> present st b = true.
Proof.
  intros [He Hv]. destruct st as [p|p]; simpl.
  - destruct (employer_row_of p); auto.
  - destruct (vacancy_row_of p); auto.
Qed.

(** ** A transaction run twice *)

Lemma run_statement_present {D : Driver} (st : statement) (db db' : database) :
  run_statement st db = RowOk db' -> present st db' = true.
Proof.
  destruct st as [p|p]; simpl.
  - destruct (employer_row_of p) as [r| |]; try discriminate.
    intros H. inversion H. unfold insert_employer_row.
    destruct (has_employer (e_employer_id r) (employers db)) eqn:Hhas;
      [exact Hhas|].
    simpl. rewrite has_employer_app. simpl. rewrite Z.eqb_refl.
    apply orb_true_r.
  - destruct (vacancy_row_of p) as [r| |]; try discriminate.
    unfold insert_vacancy_row.
    destruct (has_vacancy (v_vacancy_id r) (vacancies db)) eqn:Hhas.
    + intros H. inversion H. subst. exact Hhas.
    + destruct (references_ok r db); [|discriminate].
      intros H. inversion H. simpl. rewrite has_vacancy_app. simpl.
      rewrite Z.eqb_refl. apply orb_true_r.
Qed.

(** A statement whose key is stored runs without error and changes nothing. *)
Lemma exec_db_present {D : Driver} (st : statement) (w : database) :
  present st w = true -> exec_db st w false = (w, false).
Proof.
  unfold exec_db. destruct st as [p|p]; simpl.
  - destruct (employer_row_of p) as [r| |]; try discriminate.
    intros H. unfold insert_employer_row. rewrite H. reflexivity.
  - destruct (vacancy_row_of p) as [r| |]; try discriminate.
    intros H. unfold insert_vacancy_row. rewrite H. reflexivity.
Qed.

Lemma exec_db_rejected {D : Driver} (st : statement) (w : database) (f : bool) :
  client_rejects st = true -> exec_db st w f = (w, f).
Proof. intros H. unfold exec_db. rewrite H. reflexivity. Qed.

Lemma exec_db_healthy {D : Driver} (st : statement) (w w' : database) (f : bool) :
  exec_db st w f = (w', false) ->
  f = false /\ (client_rejects st = true \/ present st w' = true).
Proof.
  unfold exec_db. destruct (client_rejects st).
  - intros H. inversion H. auto.
  - destruct f; [discriminate|].
    destruct (run_statement st w) eqn:Hrun; try discriminate.
    intros H. inversion H. subst. split; [reflexivity|]. right.
    eapply run_statement_present; eauto.
Qed.

(** After a transaction that was not aborted every statement was either
    refused by the client or has its key stored. *)
Lemma run_batch_healthy {D : Driver} (sts : list statement) :
  forall (w w' : database) (f : bool),
    run_batch sts w f = (w', false) ->
    f = false /\
    forall st, In st sts -> client_rejects st = true \/ present st w' = true.
Proof.
  induction sts as [|st rest IH]; intros w w' f; simpl.
  - intros H. inversion H. split; [reflexivity | contradiction].
  - destruct (exec_db st w f) as [w1 f1] eqn:Hst. intros Hrest.
    destruct (IH _ _ _ Hrest) as (Hf1 & Hall). subst f1.
    destruct (exec_db_healthy _ _ _ _ Hst) as (Hf & Hthis).
    split; [exact Hf|]. intros st' [<-|Hin]; [|auto].
    destruct Hthis as [Hrej|Hpres]; [left; exact Hrej|]. right.
    eapply present_grows; [eapply run_batch_grows; eauto | exact Hpres].
Qed.

Lemma run_batch_settled {D : Driver} (sts : list statement) (w : database) :
  (forall st, In st sts -> client_rejects st = true \/ present st w = true) ->
  run_batch sts w false = (w, false).
Proof.
  induction sts as [|st rest IH]; intros Hall; simpl; [reflexivity|].
  assert (Hst : exec_db st w false = (w, false)).
  { destruct (Hall st (or_introl eq_refl)) as [Hrej|Hpres].
    - apply exec_db_rejected. exact Hrej.
    - apply exec_db_present. exact Hpres. }
  rewrite Hst. apply IH. intros st' Hin. apply Hall. right. exact Hin.
Qed.

(** Running the same transaction again changes nothing. *)
Lemma batch_idempotent {D : Driver} (sts : list statement) (db : database) :
  batch sts (batch sts db) = batch sts db.
Proof.
  unfold batch at 2 3. destruct (run_batch sts db false) as [w f] eqn:Hrun.
  destruct f; [unfold batch; rewrite Hrun; reflexivity|].
  destruct (run_batch_healthy _ _ _ _ Hrun) as (_ & Hall).
  unfold batch. rewrite (run_batch_settled sts w Hall). reflexivity.
Qed.

(** Whether a transaction of employer inserts is aborted does not depend on
    the tables: such a statement fails on the server only when its row is
    ill-formed. *)
Lemma exec_db_employer_flag {D : Driver} (st : statement) (w : database)
  (f : bool) :
  is_employer_statement st = true ->
  snd (exec_db st w f) = f || ill_formed st.
Proof.
  destruct st as [p|p]; [intros _|discriminate].
  unfold exec_db. simpl.
  destruct (employer_row_of p); destruct f; reflexivity.
Qed.

Lemma run_batch_employers_flag {D : Driver} (sts : list statement) :
  forall (w : database) (f : bool),
    forallb is_employer_statement sts = true ->
    snd (run_batch sts w f) = f || existsb ill_formed sts.
Proof.
  induction sts as [|st rest IH]; intros w f; simpl.
  - intros _. rewrite orb_false_r. reflexivity.
  - intros H. apply andb_true_iff in H as [Hst Hrest].
    pose proof (exec_db_employer_flag st w f Hst) as Hflag.
    destruct (exec_db st w f) as [w1 f1]. simpl in Hflag. subst f1.
    rewrite (IH _ _ Hrest). rewrite orb_assoc. reflexivity.
Qed.

(** A transaction of employer inserts that leaves a database unchanged also
    leaves unchanged every database that has grown from it. *)
Lemma employers_batch_stays_settled {D : Driver} (sts : list statement)
  (x y : database) :
  forallb is_employer_statement sts = true ->
  batch sts x = x -> grows x y -> batch sts y = y.
Proof.
  intros Hemp Hx Hgrow. unfold batch in *.
  pose proof (run_batch_employers_flag sts x false Hemp) as Hfx.
  pose proof (run_batch_employers_flag sts y false Hemp) as Hfy.
  destruct (run_batch sts x false) as [w f] eqn:Hrun. simpl in Hfx.
  destruct f.
  - destruct (run_batch sts y false) as [w' f']. simpl in Hfy.
    rewrite <- Hfx in Hfy. subst f'. reflexivity.
  - subst w. destruct (run_batch_healthy _ _ _ _ Hrun) as (_ & Hall).
    rewrite (run_batch_settled sts y); [reflexivity|].
    intros st Hin. destruct (Hall st Hin) as [Hrej|Hpres]; [left; exact Hrej|].
    right. eapply present_grows; eauto.
Qed.

Lemma employer_statements_are_employer (data : list dict) :
  forallb is_employer_statement (map employer_statement data) = true.
Proof. induction data as [|e rest IH]; simpl; auto. Qed.

(** ** The loading block as two transactions *)

Lemma commit_after_batch (sts : list statement) {D : Driver} (s : session)
  (db : database) :
  committed s = db ->
  (working s, tx_failed s) = run_batch sts db false ->
  committed (commit s) = batch sts db /\
  working (commit s) = batch sts db /\
  tx_failed (commit s) = false.
Proof.
  intros Hc Hw. unfold batch, commit. rewrite <- Hw.
  destruct (tx_failed s); simpl; auto.
Qed.

Lemma load_batches {D : Driver} (employers_data vacancies_data : list dict)
  (db : database) :
  load employers_data vacancies_data db
  = batch (flat_map vacancy_statement vacancies_data)
          (batch (map employer_statement employers_data) db).
Proof.
  unfold load, insert_vacancies, insert_employers.
  destruct (insert_employers_loop_effect employers_data (connect db))
    as (Hc1 & _ & Hw1).
  simpl in Hc1, Hw1.
  destruct (commit_after_batch _ _ db Hc1 Hw1) as (Hc2 & Hw2 & Hf2).
  set (s1 := commit (insert_employers_loop employers_data (connect db))) in *.
  destruct (insert_vacancies_loop_effect vacancies_data s1) as (Hc3 & _ & Hw3).
  rewrite Hw2, Hf2 in Hw3. rewrite Hc2 in Hc3.
  destruct (commit_after_batch _ _ _ Hc3 Hw3) as (Hc4 & Hw4 & Hf4).
  set (s2 := commit (insert_vacancies_loop vacancies_data s1)) in *.
  unfold commit. rewrite Hf4. simpl. exact Hw4.
Qed.

(** ** Unique keys *)

Lemma has_employer_false (k : Z) (t : list employer_row) :
  has_employer k t = false -> ~ In k (map e_employer_id t).
Proof.
  induction t as [|r t IH]; simpl; [tauto|].
  intros H. apply orb_false_iff in H as [Hr Ht].
  apply Z.eqb_neq in Hr. intros [Heq|Hin]; [congruence | exact (IH Ht Hin)].
Qed.

Lemma has_vacancy_false (k : Z) (t : list vacancy_row) :
  has_vacancy k t = false -> ~ In k (map v_vacancy_id t).
Proof.
  induction t as [|r t IH]; simpl; [tauto|].
  intros H. apply orb_false_iff in H as [Hr Ht].
  apply Z.eqb_neq in Hr. intros [Heq|Hin]; [congruence | exact (IH Ht Hin)].
Qed.

Lemma NoDup_snoc (k : Z) (l : list Z) :
  NoDup l -> ~ In k l -> NoDup (l ++ [k]).
Proof.
  intros Hl Hk. induction Hl as [|x l Hx Hl IH]; simpl.
  - constructor; [tauto | constructor].
  - constructor.
    + rewrite in_app_iff. simpl. intros [H|[H|[]]]; [tauto|].
      apply Hk. left. symmetry. exact H.
    + apply IH. intros H. apply Hk. right. exact H.
Qed.

Lemma run_statement_unique {D : Driver} (st : statement) (db db' : database) :
  run_statement st db = RowOk db' -> unique_keys db -> unique_keys db'.
Proof.
  intros Hrun [He Hv]. destruct st as [p|p]; simpl in Hrun.
  - destruct (employer_row_of p) as [r| |]; try discriminate.
    inversion Hrun. unfold insert_employer_row.
    destruct (has_employer (e_employer_id r) (employers db)) eqn:Hhas;
      [split; assumption|].
    split; simpl; [|exact Hv]. rewrite map_app. simpl.
    apply NoDup_snoc; [exact He | apply has_employer_false; exact Hhas].
  - destruct (vacancy_row_of p) as [r| |]; try discriminate.
    unfold insert_vacancy_row in Hrun.
    destruct (has_vacancy (v_vacancy_id r) (vacancies db)) eqn:Hhas.
    + inversion Hrun. subst. split; assumption.
    + destruct (references_ok r db); [|discriminate].
      inversion Hrun. split; simpl; [exact He|]. rewrite map_app. simpl.
      apply NoDup_snoc; [exact Hv | apply has_vacancy_false; exact Hhas].
Qed.

Lemma run_batch_unique {D : Driver} (sts : list statement) :
  forall (w w' : database) (f f' : bool),
    run_batch sts w f = (w', f') -> unique_keys w -> unique_keys w'.
Proof.
  induction sts as [|st rest IH]; intros w w' f f'; simpl.
  - intros H. inversion H. subst. auto.
  - destruct (exec_db st w f) as [w1 f1] eqn:Hst. intros Hrest Hu.
    apply (IH _ _ _ _ Hrest). unfold exec_db in Hst.
    destruct (client_rejects st); [inversion Hst; subst; exact Hu|].
    destruct f; [inversion Hst; subst; exact Hu|].
    destruct (run_statement st w) eqn:Hrun; inversion Hst; subst;
      try exact Hu.
    eapply run_statement_unique; eauto.
Qed.

Lemma batch_unique {D : Driver} (sts : list statement) (db : database) :
  unique_keys db -> unique_keys (batch sts db).
Proof.
  intros Hu. unfold batch. destruct (run_batch sts db false) as [w f] eqn:H.
  destruct f; [exact Hu | eapply run_batch_unique; eauto].
Qed.

(** ** Idempotent ingestion *)

Lemma load_idempotent {D : Driver} (employers_data vacancies_data : list dict)
  (db : database) :
  load employers_data vacancies_data (load employers_data vacancies_data db)
  = load employers_data vacancies_data db.
Proof.
  rewrite !load_batches.
  set (E := map employer_statement employers_data).
  set (V := flat_map vacancy_statement vacancies_data).
  assert (HE : batch E (batch V (batch E db)) = batch V (batch E db)).
  { apply (employers_batch_stays_settled E (batch E db)).
    - apply employer_statements_are_employer.
    - apply batch_idempotent.
    - apply batch_grows. }
  rewrite HE. apply batch_idempotent.
Qed.

Lemma insert_existing_employer {D : Driver} (p : employer_params)
  (r : employer_row) (s : session) :
  employer_row_of p = RowOk r ->
  tx_failed s = false ->
  has_employer (e_employer_id r) (employers (working s)) = true ->
  cursor_execute (InsertEmployer p) s
  = (Executed, note_executed (InsertEmployer p) s).
Proof.
  intros Hrow Hok Hhas. unfold cursor_execute, client_rejects, run_statement.
  rewrite Hrow. simpl. rewrite Hok. unfold insert_employer_row.
  rewrite Hhas. unfold set_working, note_executed. simpl. reflexivity.
Qed.

Lemma insert_existing_vacancy {D : Driver} (p : vacancy_params)
  (r : vacancy_row) (s : session) :
  vacancy_row_of p = RowOk r ->
  tx_failed s = false ->
  has_vacancy (v_vacancy_id r) (vacancies (working s)) = true ->
  cursor_execute (InsertVacancy p) s
  = (Executed, note_executed (InsertVacancy p) s).
Proof.
  intros Hrow Hok Hhas. unfold cursor_execute, client_rejects, run_statement.
  rewrite Hrow. simpl. rewrite Hok. unfold insert_vacancy_row.
  rewrite Hhas. unfold set_working, note_executed. simpl. reflexivity.
Qed.

(** C1. Loading the same employer and vacancy records a second time leaves
    the stored rows exactly as the first load left them, and the unique keys
    stay unique.  Inside an open transaction, inserting an employer row whose
    [employer_id] is stored, or a vacancy row whose [vacancy_id] is stored,
    returns normally and changes neither the transaction's view nor the
    committed rows: no duplicate, no update, no error. *)
Theorem ingestion_is_idempotent {D : Driver} :
  (forall employers_data vacancies_data db,
     load employers_data vacancies_data
          (load employers_data vacancies_data db)
     = load employers_data vacancies_data db) /\
  (forall employers_data vacancies_data db,
     unique_keys db -> unique_keys (load employers_data vacancies_data db)) /\
  (forall p r s,
     employer_row_of p = RowOk r ->
     tx_failed s = false ->
     has_employer (e_employer_id r) (employers (working s)) = true ->
     let '(result, s') := cursor_execute (InsertEmployer p) s in
     result = Executed /\ working s' = working s /\
     committed s' = committed s /\ tx_failed s' = false) /\
  (forall p r s,
     vacancy_row_of p = RowOk r ->
     tx_failed s = false ->
     has_vacancy (v_vacancy_id r) (vacancies (working s)) = true ->
     let '(result, s') := cursor_execute (InsertVacancy p) s in
     result = Executed /\ working s' = working s /\
     committed s' = committed s /\ tx_failed s' = false).
Proof.
  split; [|split; [|split]].
  - intros. apply load_idempotent.
  - intros es vs db Hu. rewrite load_batches. do 2 apply batch_unique.
    exact Hu.
  - intros p r s Hrow Hok Hhas.
    rewrite (insert_existing_employer p r s Hrow Hok Hhas). simpl. auto.
  - intros p r s Hrow Hok Hhas.
    rewrite (insert_existing_vacancy p r s Hrow Hok Hhas). simpl. auto.
Qed.

(** A witness for C1: one employer and one of its vacancies, with the
    identifiers as strings of digits. *)
Lemma ingestion_is_idempotent_witness :
  let employers_data := [[("id", PStr "1740"); ("name", PStr "Yandex")]] in
  let vacancies_data :=
    [[("id", PStr "10"); ("name", PStr "dev");
      ("employer", PDict [("id", PStr "1740")]); ("salary", PNone)]] in
  let once := load (D := example_driver) employers_data vacancies_data empty_db in
  load (D := example_driver) employers_data vacancies_data once = once /\
  (let '(result, s') :=
     cursor_execute (D := example_driver)
       (InsertEmployer (PStr "1740", PStr "Yandex", PStr "")) (connect once) in
   result = Executed /\ working s' = once).
Proof.
  cbv zeta.
  destruct (ingestion_is_idempotent (D := example_driver))
    as (Hload & _ & Hemp & _).
  split; [apply Hload|].
  specialize (Hemp (PStr "1740", PStr "Yandex", PStr "")
                (mkEmployer 1740 "Yandex" (Some ""))
                (connect
                   (load (D := example_driver)
                      [[("id", PStr "1740"); ("name", PStr "Yandex")]]
                      [[("id", PStr "10"); ("name", PStr "dev");
                        ("employer", PDict [("id", PStr "1740")]);
                        ("salary", PNone)]] empty_db))
                eq_refl eq_refl eq_refl).
  destruct (cursor_execute _ _) as [result s'].
  destruct Hemp as (Hres & Hw & _ & _). split; [exact Hres | exact Hw].
Defined.

(** ** A failing insert inside a batch *)

(** An employer record whose row is ill-formed aborts the transaction of
    [insert_employers]: nothing of the batch is committed. *)
Lemma ill_formed_employer_loses_batch {D : Driver} (data : list dict)
  (db : database) :
  existsb ill_formed (map employer_statement data) = true ->
  committed (insert_employers data (connect db)) = db.
Proof.
  intros Hill. unfold insert_employers.
  destruct (insert_employers_loop_effect data (connect db)) as (Hc & _ & Hw).
  simpl in Hc, Hw.
  pose proof (run_batch_employers_flag (map employer_statement data) db false
                (employer_statements_are_employer data)) as Hflag.
  rewrite <- Hw in Hflag. simpl in Hflag. rewrite Hill in Hflag.
  unfold commit. rewrite Hflag. simpl. exact Hc.
Qed.

(** An employer record without [id] is ill-formed for every driver:
    [None] is sent as [NULL] into a [NOT NULL] column, unless the client
    already refuses another parameter. *)
Lemma employer_without_id_fails {D : Driver} (employer : dict) :
  dict_get employer "id" = None ->
  ill_formed (employer_statement employer)
  || client_rejects (employer_statement employer) = true.
Proof.
  intros Hid. unfold employer_statement, ill_formed, client_rejects,
    employer_row_of, get_or. rewrite Hid. cbn [bind_int4].
  destruct (bind_varchar 255 _), (bind_varchar 255 _); reflexivity.
Qed.

(** C8, on the code.  [Hh_Api.get_employer] answers a 503 response with
    [{}]; inserting [{}] violates [NOT NULL] and is caught and logged; the
    next record, which is stored when inserted alone, is attempted but
    refused by the aborted transaction, and the commit stores nothing, not
    even a record inserted before the failure.  [insert_vacancies] loses its
    batch in the same way. *)
Theorem failed_insert_loses_the_batch :
  let good := [("id", PInt 1); ("name", PStr "A")] in
  let other := [("id", PInt 2); ("name", PStr "B")] in
  fst (get_employer net_unavailable 1740 net_start) = Returned (PDict []) /\
  employers (committed (insert_employers (D := example_driver) [good]
                          (connect empty_db)))
  = [mkEmployer 1 "A" (Some "")] /\
  employers (committed (insert_employers (D := example_driver) [[]; good]
                          (connect empty_db)))
  = [] /\
  app_log (insert_employers (D := example_driver) [[]; good] (connect empty_db))
  = [ErrInsertEmployer (PStr "N/A"); ErrInsertEmployer (PInt 1)] /\
  executed (insert_employers (D := example_driver) [[]; good] (connect empty_db))
  = [employer_statement []; employer_statement good] /\
  employers (committed (insert_employers (D := example_driver)
                          [other; []; good] (connect empty_db)))
  = [] /\
  (let no_id := [("id", PNone); ("name", PStr "x"); ("employer", PDict [])] in
   let dev := [("id", PInt 10); ("name", PStr "dev"); ("employer", PDict [])] in
   vacancies (committed (insert_vacancies (D := example_driver) [dev]
                           (connect empty_db)))
   = [mkVacancy 10 "dev" None None None None (Some "")] /\
   vacancies (committed (insert_vacancies (D := example_driver) [no_id; dev]
                           (connect empty_db)))
   = []).
Proof. cbv zeta. repeat split. Qed.

(** ** The salary reports *)

(** The three cases of the midpoint expression of a row. *)
Lemma midpoint_expr_cases (r : vacancy_row) :
  (both_bounds r = false /\ sum_fits r = true /\ midpoint_expr r = SqlNull) \/
  (both_bounds r = true /\ sum_fits r = true /\
   midpoint_expr r = SqlInt (int_midpoint r)) \/
  (both_bounds r = true /\ sum_fits r = false /\
   midpoint_expr r = SqlOutOfRange).
Proof.
  unfold midpoint_expr, sum_fits, both_bounds, int_midpoint.
  destruct (v_salary_from r) as [f|], (v_salary_to r) as [u|]; auto.
  destruct (in_int4 (f + u)); auto.
Qed.

(** What the aggregates see: the integer midpoints of the rows with both
    bounds, unless a sum overflows.  Filtering the rows first or letting the
    aggregate skip the [NULL]s comes to the same. *)
Lemma aggregate_input_all (t : list vacancy_row) :
  aggregate_input (map midpoint_expr t)
  = if forallb sum_fits t
    then Some (map int_midpoint (filter both_bounds t))
    else None.
Proof.
  induction t as [|r t IH]; simpl; [reflexivity|].
  destruct (midpoint_expr_cases r)
    as [(Hb & Hs & Hm)|[(Hb & Hs & Hm)|(Hb & Hs & Hm)]];
    rewrite Hb, Hs, Hm; simpl; try exact IH; [|reflexivity].
  rewrite IH. destruct (forallb sum_fits t); reflexivity.
Qed.

Lemma aggregate_input_filtered (t : list vacancy_row) :
  aggregate_input (map midpoint_expr (filter both_bounds t))
  = if forallb sum_fits t
    then Some (map int_midpoint (filter both_bounds t))
    else None.
Proof.
  induction t as [|r t IH]; simpl; [reflexivity|].
  destruct (midpoint_expr_cases r)
    as [(Hb & Hs & Hm)|[(Hb & Hs & Hm)|(Hb & Hs & Hm)]];
    rewrite Hb, Hs; simpl; rewrite ?Hm; try exact IH; [|reflexivity].
  rewrite IH. destruct (forallb sum_fits t); reflexivity.
Qed.

Lemma sql_avg_nonempty (zs : list Z) :
  zs <> [] ->
  sql_avg zs = Some (Qmake (total zs) (Pos.of_nat (List.length zs))) /\
  Zpos (Pos.of_nat (List.length zs)) = Z.of_nat (List.length zs).
Proof.
  destruct zs as [|z zs]; [congruence|]. intros _. split; [reflexivity|].
  simpl List.length. rewrite <- Pos.of_nat_succ. lia.
Qed.

(** [ROUND] gives the nearest integer, the one farther from zero at a tie. *)
Lemma sql_round_nearest (n : Z) (d : positive) :
  let r := sql_round (Qmake n d) in
  (0 <= n -> - Zpos d < 2 * (r * Zpos d - n) <= Zpos d) /\
  (n < 0 -> - Zpos d <= 2 * (r * Zpos d - n) < Zpos d).
Proof.
  unfold sql_round. simpl Qnum. simpl Qden.
  destruct (Z.leb_spec 0 n) as [Hn|Hn]; split; intros H; try lia.
  - pose proof (Z.div_mod (2 * n + Zpos d) (2 * Zpos d) ltac:(lia)) as Hdm.
    pose proof (Z.mod_pos_bound (2 * n + Zpos d) (2 * Zpos d) ltac:(lia)) as Hb.
    nia.
  - pose proof (Z.div_mod (2 * - n + Zpos d) (2 * Zpos d) ltac:(lia)) as Hdm.
    pose proof (Z.mod_pos_bound (2 * - n + Zpos d) (2 * Zpos d) ltac:(lia))
      as Hb.
    nia.
Qed.

(** C6, as stated, fails: when no vacancy has both bounds the aggregate
    query still returns one row, holding [NULL], not an empty result. *)
Lemma average_salary_not_as_specified : ~ average_salary_as_specified.
Proof.
  intros H.
  specialize (H (mkDb [] [mkVacancy 1 "dev" (Some 100) None None None None])
                eq_refl).
  vm_compute in H. discriminate H.
Qed.

(** The integer division also shows: three vacancies with bounds (0,1), (0,1)
    and (0,2) have exact midpoints averaging 2/3, the query averages 0, 0
    and 1. *)
Example average_salary_truncates :
  let db := mkDb [] [mkVacancy 1 "a" (Some 0) (Some 1) None None None;
                     mkVacancy 2 "b" (Some 0) (Some 1) None None None;
                     mkVacancy 3 "c" (Some 0) (Some 2) None None None] in
  get_avg_salary db = Some [Some 0] /\ spec_average_salary db = [1].
Proof. split; reflexivity. Qed.

(** C6, amended.  [get_avg_salary] always returns one row.  Over the
    vacancies with both bounds present it averages the integer midpoints
    [(salary_from + salary_to) / 2], the division truncating towards zero,
    and rounds the average to the nearest integer, ties away from zero; for
    the bounds (100,200) and (300,300) the value is 225.  With no such
    vacancy the value of the single row is [NULL].  The query raises when a
    sum of two bounds does not fit in 32 bits. *)
Theorem average_salary_of_integer_midpoints (db : database) :
  let ms := int_midpoints db in
  let N := Z.of_nat (List.length ms) in
  let S := total ms in
  (forallb sum_fits (vacancies db) = false -> get_avg_salary db = None) /\
  (forallb sum_fits (vacancies db) = true -> ms = [] ->
   get_avg_salary db = Some [None]) /\
  (forallb sum_fits (vacancies db) = true -> ms <> [] ->
   exists r,
     get_avg_salary db = Some [Some r] /\
     (0 <= S -> - N < 2 * (r * N - S) <= N) /\
     (S < 0 -> - N <= 2 * (r * N - S) < N)) /\
  get_avg_salary
    (mkDb [] [mkVacancy 1 "a" (Some 100) (Some 200) None None None;
              mkVacancy 2 "b" (Some 300) (Some 300) None None None])
  = Some [Some 225].
Proof.
  cbv zeta. unfold get_avg_salary, int_midpoints.
  rewrite aggregate_input_filtered.
  split; [|split; [|split]].
  - intros Hfit. rewrite Hfit. reflexivity.
  - intros Hfit Hms. rewrite Hfit, Hms. reflexivity.
  - intros Hfit Hms. rewrite Hfit.
    destruct (sql_avg_nonempty _ Hms) as (Havg & Hden).
    rewrite Havg. simpl option_map. eexists. split; [reflexivity|].
    rewrite <- Hden. apply sql_round_nearest.
  - reflexivity.
Qed.

(** A witness for the amended C6: one vacancy with bounds (1,2), integer
    midpoint 1. *)
Lemma average_salary_of_integer_midpoints_witness :
  exists r,
    get_avg_salary (mkDb [] [mkVacancy 1 "a" (Some 1) (Some 2) None None None])
    = Some [Some r] /\ r = 1.
Proof.
  destruct (average_salary_of_integer_midpoints
              (mkDb [] [mkVacancy 1 "a" (Some 1) (Some 2) None None None]))
    as (_ & _ & H & _).
  destruct (H eq_refl ltac:(discriminate)) as (r & Hr & Hpos & _).
  exists r. split; [exact Hr|].
  vm_compute in Hr. injection Hr as Hr. symmetry. exact Hr.
Defined.

(** C7, as stated, fails: with bounds (100,201) and (100,200) the exact
    midpoints are 150.5 and 150, so the first vacancy exceeds the average
    150.25; the query compares the integer midpoints 150 and 150 with their
    average 150 and returns nothing. *)
Lemma above_average_not_as_specified : ~ above_average_as_specified.
Proof.
  intros H.
  specialize (H (mkDb [] [mkVacancy 1 "a" (Some 100) (Some 201) None None None;
                          mkVacancy 2 "b" (Some 100) (Some 200) None None None])
                eq_refl).
  vm_compute in H. discriminate H.
Qed.

Lemma above_average_filter (ms : list Z) (r : vacancy_row) :
  sum_fits r = true ->
  above_average (sql_avg ms) r
  = both_bounds r &&
    (total ms <? int_midpoint r * Z.of_nat (List.length ms)).
Proof.
  intros Hfit. unfold above_average.
  destruct (midpoint_expr_cases r)
    as [(Hb & Hs & Hm)|[(Hb & Hs & Hm)|(Hb & Hs & Hm)]];
    rewrite Hb, Hm; try reflexivity; [|congruence].
  destruct ms as [|z zs].
  - simpl. rewrite Z.mul_0_r. reflexivity.
  - destruct (sql_avg_nonempty (z :: zs) ltac:(discriminate)) as (Havg & Hden).
    rewrite Havg, <- Hden. unfold sql_gt, Qle_bool. simpl Qnum. simpl Qden.
    rewrite andb_true_r, Z.mul_1_r. rewrite Z.ltb_antisym. reflexivity.
Qed.

(** C7, amended.  [get_vacancies_with_higher_salary] returns, in table
    order, the title and the integer midpoint [(salary_from + salary_to) / 2]
    (division truncating towards zero) of exactly the vacancies with both
    bounds present whose integer midpoint strictly exceeds the average [S/N]
    of the integer midpoints of all vacancies with both bounds present; a
    midpoint equal to the average is excluded.  The query raises when a sum
    of two bounds does not fit in 32 bits. *)
Theorem above_average_of_integer_midpoints (db : database) :
  let ms := int_midpoints db in
  let N := Z.of_nat (List.length ms) in
  let S := total ms in
  (forallb sum_fits (vacancies db) = false ->
   get_vacancies_with_higher_salary db = None) /\
  (forallb sum_fits (vacancies db) = true ->
   get_vacancies_with_higher_salary db
   = Some (map (fun r => (v_title r, int_midpoint r))
               (filter (fun r => both_bounds r && (S <? int_midpoint r * N))
                       (vacancies db)))) /\
  get_vacancies_with_higher_salary
    (mkDb [] [mkVacancy 1 "a" (Some 100) (Some 100) None None None;
              mkVacancy 2 "b" (Some 200) (Some 250) None None None;
              mkVacancy 3 "c" (Some 300) (Some 500) None None None;
              mkVacancy 4 "d" (Some 150) (Some 200) None None None])
  = Some [("c", 400)].
Proof.
  cbv zeta. unfold get_vacancies_with_higher_salary, int_midpoints.
  rewrite aggregate_input_all. split; [|split].
  - intros Hfit. rewrite Hfit. reflexivity.
  - intros Hfit. rewrite Hfit. f_equal.
    rewrite forallb_forall in Hfit.
    set (ms := map int_midpoint (filter both_bounds (vacancies db))).
    rewrite (filter_ext_in (above_average (sql_avg ms))
               (fun r => both_bounds r
                         && (total ms <? int_midpoint r * Z.of_nat (List.length ms)))).
    + apply map_ext_in. intros r Hin. apply filter_In in Hin as [Hin Hkeep].
      apply andb_true_iff in Hkeep as [Hb _]. unfold title_and_midpoint.
      destruct (midpoint_expr_cases r)
        as [(Hb' & Hs & Hm)|[(Hb' & Hs & Hm)|(Hb' & Hs & Hm)]];
        try congruence.
      * rewrite Hm. reflexivity.
      * rewrite (Hfit r Hin) in Hs. discriminate.
    + intros r Hin. apply above_average_filter. apply Hfit. exact Hin.
  - reflexivity.
Qed.

(** A witness for the amended C7: midpoints 100 and 300, average 200. *)
Lemma above_average_of_integer_midpoints_witness :
  get_vacancies_with_higher_salary
    (mkDb [] [mkVacancy 1 "a" (Some 100) (Some 100) None None None;
              mkVacancy 2 "b" (Some 300) (Some 300) None None None])
  = Some [("b", 300)].
Proof.
  destruct (above_average_of_integer_midpoints
              (mkDb [] [mkVacancy 1 "a" (Some 100) (Some 100) None None None;
                        mkVacancy 2 "b" (Some 300) (Some 300) None None None]))
    as (_ & H & _).
  rewrite (H eq_refl). reflexivity.
Defined.

(** ** Keyword search *)

Lemma like_percent (text : string) : like "%" text = true.
Proof.
  induction text as [|c t IH]; [reflexivity|].
  simpl in *. exact IH.
Qed.

Lemma like_percent_percent (text : string) : like "%%" text = true.
Proof.
  destruct text as [|c t]; [reflexivity|].
  change (like "%%" (String c t))
    with (like "%" (String c t)
          || (fix from (t0 : string) : bool :=
                like "%" t0 ||
                match t0 with
                | EmptyString => false
                | String _ t' => from t'
                end) t).
  rewrite like_percent. reflexivity.
Qed.

Lemma filter_all {A : Type} (f : A -> bool) (l : list A) :
  (forall a, f a = true) -> filter f l = l.
Proof.
  intros H. induction l as [|a l IH]; simpl; [reflexivity|].
  rewrite H, IH. reflexivity.
Qed.

(** C10. For the empty keyword the pattern is [%%], which every title
    matches: the search returns the (title, employer_id, url) triple of
    every stored vacancy, in table order. *)
Theorem empty_keyword_lists_everything (db : database) :
  get_vacancies_with_keyword "" db = all_keyword_rows db.
Proof.
  unfold get_vacancies_with_keyword, all_keyword_rows.
  rewrite filter_all; [reflexivity|].
  intros r. apply like_percent_percent.
Qed.

Example keyword_search_python :
  let db := mkDb [] [mkVacancy 1 "Senior Python Developer" None None None
                               (Some 7) (Some "u1");
                     mkVacancy 2 "Java Developer" None None None
                               (Some 8) (Some "u2")] in
  get_vacancies_with_keyword "python" db
  = [("Senior Python Developer", Some 7, Some "u1")] /\
  get_vacancies_with_keyword "PYTHON" db
  = [("Senior Python Developer", Some 7, Some "u1")].
Proof. split; reflexivity. Qed.

(* ===================================================================== *)
(** * Further properties of the code *)
(* ===================================================================== *)

(** ** The cost of a retrying fetch *)

Lemma total_app (a b : list Z) : total (a ++ b) = total a + total b.
Proof. induction a as [|x a IH]; simpl; [reflexivity | rewrite IH; lia]. Qed.

Lemma sleeps_failed_attempts_nonneg (employer_id retries : Z) (attempts : list Z) :
  0 <= total (sleeps (flat_map (failed_attempt employer_id retries) attempts)).
Proof.
  induction attempts as [|k rest IH]; simpl; [lia|].
  destruct (k <? retries); simpl; [|exact IH].
  pose proof (Z.pow_nonneg 2 k ltac:(lia)). lia.
Qed.

(** Sleeping after each of the attempts [0 .. n-1] that is not the last
    allowed one takes [2^min(n, retries) - 1] seconds. *)
Lemma sleeps_of_first_attempts (employer_id retries : Z) (n : nat) :
  0 <= retries ->
  total (sleeps (flat_map (failed_attempt employer_id retries)
                          (map Z.of_nat (seq 0 n))))
  = 2 ^ Z.min (Z.of_nat n) retries - 1.
Proof.
  intros Hr. induction n as [|n IH].
  - simpl. rewrite Z.min_l by lia. reflexivity.
  - rewrite seq_S, map_app, flat_map_app, sleeps_app, total_app, IH.
    simpl. destruct (Z.ltb_spec (Z.of_nat n) retries) as [Hlt|Hge]; simpl.
    + change (Z.pos (Pos.of_succ_nat n)) with (Z.of_nat (S n)).
      rewrite Z.min_l by lia. rewrite Z.min_l by lia.
      rewrite Nat2Z.inj_succ, Z.pow_succ_r by lia. lia.
    + change (Z.pos (Pos.of_succ_nat n)) with (Z.of_nat (S n)).
      rewrite Z.min_r by lia. rewrite Z.min_r by lia. lia.
Qed.

(** Whatever the remote side does, the loop makes at most one request per
    attempt and sleeps at most what the failed attempts allow. *)
Lemma retry_loop_budget (net : network) (employer_id retries : Z) :
  forall (attempts : list Z) (w : net_world),
    let '(_, w') := retry_loop net employer_id retries attempts w in
    (requests_made w <= requests_made w'
     <= requests_made w + List.length attempts)%nat /\
    total (sleeps (history w)) <= total (sleeps (history w'))
    <= total (sleeps (history w))
       + total (sleeps (flat_map (failed_attempt employer_id retries) attempts)).
Proof.
  induction attempts as [|k rest IH]; intros w.
  - simpl. lia.
  - cbn [retry_loop flat_map]. rewrite get_vacancies_outcome.
    pose proof (sleeps_failed_attempts_nonneg employer_id retries rest) as Hnn.
    pose proof (Z.pow_nonneg 2 k ltac:(lia)) as Hpow.
    rewrite sleeps_app, total_app. unfold failed_attempt at 1.
    destruct (fst (get_vacancies net employer_id (mkNet (requests_made w) [])))
      as [v|e].
    + cbn [requests_made history]. rewrite sleeps_app, total_app.
      destruct (k <? retries); cbn [sleeps total fold_right List.length]; lia.
    + destruct (k <? retries).
      * match goal with
        | |- context [retry_loop _ _ _ _ ?w1] => specialize (IH w1)
        end.
        destruct (retry_loop net employer_id retries rest _) as [v w'].
        unfold record_event in IH. cbn [requests_made history] in IH.
        rewrite !sleeps_app, !total_app in IH.
        cbn [sleeps total fold_right List.length] in *. lia.
      * match goal with
        | |- context [retry_loop _ _ _ _ ?w1] => specialize (IH w1)
        end.
        destruct (retry_loop net employer_id retries rest _) as [v w'].
        unfold record_event in IH. cbn [requests_made history] in IH.
        rewrite !sleeps_app, !total_app in IH.
        cbn [sleeps total fold_right List.length] in *. lia.
Qed.

(** X1. For any remote side and [retries >= 0], a retrying fetch makes at
    least one and at most [retries + 1] requests and sleeps at most
    [2^retries - 1] seconds in all. *)
Theorem retry_cost_is_bounded (net : network) (employer_id retries : Z)
  (w : net_world) :
  0 <= retries ->
  let '(_, w') := get_vacancies_with_retry net employer_id retries w in
  (requests_made w + 1 <= requests_made w'
   <= requests_made w + Z.to_nat retries + 1)%nat /\
  total (sleeps (history w')) - total (sleeps (history w)) <= 2 ^ retries - 1.
Proof.
  intros Hr. unfold get_vacancies_with_retry.
  pose proof (retry_loop_budget net employer_id retries (range (retries + 1)) w)
    as Hb.
  pose proof (sleeps_of_first_attempts employer_id retries
                (Z.to_nat (retries + 1)) Hr) as Hs.
  fold (range (retries + 1)) in Hs. rewrite Z.min_r in Hs by lia.
  assert (Hfirst : exists rest, range (retries + 1) = 0 :: rest).
  { unfold range. replace (Z.to_nat (retries + 1)) with (S (Z.to_nat retries))
      by lia. simpl. eexists. reflexivity. }
  destruct Hfirst as [rest Hrange].
  assert (Hone : (requests_made w + 1
                  <= requests_made
                       (snd (retry_loop net employer_id retries
                               (range (retries + 1)) w)))%nat).
  { rewrite Hrange. cbn [retry_loop]. rewrite get_vacancies_outcome.
    destruct (fst (get_vacancies net employer_id (mkNet (requests_made w) [])))
      as [v|e]; [simpl; lia|].
    destruct (0 <? retries).
    - match goal with
      | |- context [retry_loop _ _ _ _ ?w1] =>
          pose proof (retry_loop_budget net employer_id retries rest w1) as H1
      end.
      destruct (retry_loop net employer_id retries rest _) as [v w'].
      simpl in *. lia.
    - match goal with
      | |- context [retry_loop _ _ _ _ ?w1] =>
          pose proof (retry_loop_budget net employer_id retries rest w1) as H1
      end.
      destruct (retry_loop net employer_id retries rest _) as [v w'].
      simpl in *. lia. }
  destruct (retry_loop net employer_id retries (range (retries + 1)) w)
    as [v w'].
  rewrite range_length in Hb. simpl in Hone. lia.
Qed.

Lemma retry_cost_is_bounded_witness :
  let '(_, w') := get_vacancies_with_retry net_unavailable 1740 3 net_start in
  (1 <= requests_made w' <= 4)%nat /\ total (sleeps (history w')) <= 7.
Proof.
  pose proof (retry_cost_is_bounded net_unavailable 1740 3 net_start
                ltac:(lia)) as H.
  destruct (get_vacancies_with_retry net_unavailable 1740 3 net_start)
    as [v w'].
  simpl in H. split; lia.
Defined.

(** X2. With a negative number of retries the loop body never runs: the API
    is not called, nothing is logged, and the empty list is returned. *)
Theorem negative_retries_fetch_nothing (net : network) (employer_id retries : Z)
  (w : net_world) :
  retries < 0 ->
  get_vacancies_with_retry net employer_id retries w = (PList [], w).
Proof.
  intros Hr. unfold get_vacancies_with_retry, range.
  replace (Z.to_nat (retries + 1)) with 0%nat by lia. reflexivity.
Qed.

Lemma negative_retries_fetch_nothing_witness :
  get_vacancies_with_retry (fun _ _ => ConnectionFailed) 1740 (-1) net_start
  = (PList [], net_start).
Proof.
  apply negative_retries_fetch_nothing. lia.
Defined.

(** X3. When every attempt raises, with [retries >= 0], the fetch makes
    exactly [retries + 1] requests, sleeps [2^retries - 1] seconds in all and
    returns the empty list. *)
Theorem exhausted_retries_cost (net : network) (employer_id retries : Z)
  (w : net_world) :
  0 <= retries ->
  (forall i, (i <= Z.to_nat retries)%nat ->
     attempt_raises (net (requests_made w + i)%nat (GetVacancies employer_id))
     = true) ->
  let '(v, w') := get_vacancies_with_retry net employer_id retries w in
  v = PList [] /\
  requests_made w' = (requests_made w + Z.to_nat retries + 1)%nat /\
  total (sleeps (history w')) = total (sleeps (history w)) + 2 ^ retries - 1.
Proof.
  intros Hr Hall. unfold get_vacancies_with_retry.
  pose proof (retry_loop_all_raise net employer_id retries
                (range (retries + 1)) w) as H.
  pose proof (sleeps_of_first_attempts employer_id retries
                (Z.to_nat (retries + 1)) Hr) as Hs.
  fold (range (retries + 1)) in Hs. rewrite Z.min_r in Hs by lia.
  destruct (retry_loop net employer_id retries (range (retries + 1)) w)
    as [v w'].
  rewrite range_length in H.
  destruct H as (Hv & Hn & Ht); [intros i Hi; apply Hall; lia|].
  repeat split; [exact Hv | lia |].
  rewrite <- (sleeps_timeline (history w')), Ht, sleeps_app, total_app,
    sleeps_timeline, Hs. lia.
Qed.

Lemma exhausted_retries_cost_witness :
  let '(v, w') :=
    get_vacancies_with_retry (fun _ _ => ConnectionFailed) 1740 5 net_start in
  v = PList [] /\ requests_made w' = 6%nat /\
  total (sleeps (history w')) = 31.
Proof.
  pose proof (exhausted_retries_cost (fun _ _ => ConnectionFailed) 1740 5
                net_start ltac:(lia) (fun _ _ => eq_refl)) as H.
  destruct (get_vacancies_with_retry _ 1740 5 net_start) as [v w'].
  exact H.
Defined.

(** ** The fetching loops of [main] *)

Lemma get_employer_outcome (net : network) (employer_id : Z) (w : net_world) :
  get_employer net employer_id w
  = (fst (get_employer net employer_id (mkNet (requests_made w) [])),
     mkNet (S (requests_made w))
           (history w ++ [Requested (GetEmployer employer_id)])).
Proof.
  unfold get_employer, requests_get; simpl.
  destruct (net (requests_made w) (GetEmployer employer_id))
    as [|status_code body]; [reflexivity|].
  destruct (status_code =? 200); reflexivity.
Qed.

(** X4. The employer loop makes exactly one request per identifier and
    never sleeps: an employer fetch is not retried.  Every identifier either
    contributes one record or one logged error. *)
Theorem fetch_employers_accounting (net : network) (employer_ids : list Z) :
  forall w : net_world,
    let '(data, errors, w') := fetch_employers net employer_ids w in
    requests_made w' = (requests_made w + List.length employer_ids)%nat /\
    (List.length data + List.length errors)%nat = List.length employer_ids /\
    sleeps (history w') = sleeps (history w).
Proof.
  induction employer_ids as [|employer_id rest IH]; intros w.
  - simpl. repeat split; lia.
  - cbn [fetch_employers]. rewrite get_employer_outcome.
    destruct (fst (get_employer net employer_id (mkNet (requests_made w) [])))
      as [employer|e].
    + match goal with
      | |- context [fetch_employers _ _ ?w1] => specialize (IH w1)
      end.
      destruct (fetch_employers net rest _) as [[data errors] w'].
      destruct IH as (Hn & Hl & Hs). cbn [requests_made history] in *.
      rewrite sleeps_app in Hs. simpl in Hs. rewrite app_nil_r in Hs.
      repeat split; simpl; try lia. exact Hs.
    + match goal with
      | |- context [fetch_employers _ _ ?w1] => specialize (IH w1)
      end.
      destruct (fetch_employers net rest _) as [[data errors] w'].
      destruct IH as (Hn & Hl & Hs). cbn [requests_made history] in *.
      rewrite sleeps_app in Hs. simpl in Hs. rewrite app_nil_r in Hs.
      repeat split; simpl; try lia. exact Hs.
Qed.

(** An employer answered with a status other than 200 leaves the empty
    dictionary among the fetched records. *)
Lemma fetch_employers_non_success (net : network) (employer_ids : list Z) :
  forall (w : net_world) (i : nat) (employer_id status_code : Z)
         (body : option pyval),
    nth_error employer_ids i = Some employer_id ->
    net (requests_made w + i)%nat (GetEmployer employer_id)
    = Response status_code body ->
    status_code <> 200 ->
    In (PDict []) (fst (fst (fetch_employers net employer_ids w))).
Proof.
  induction employer_ids as [|first rest IH];
    intros w i employer_id status_code body Hnth Hnet Hst.
  - destruct i; discriminate.
  - cbn [fetch_employers].
    destruct i as [|i].
    + simpl in Hnth. injection Hnth as ->. rewrite Nat.add_0_r in Hnet.
      unfold get_employer, requests_get. rewrite Hnet.
      destruct (Z.eqb_spec status_code 200); [contradiction|].
      destruct (fetch_employers net rest _) as [[data errors] w'].
      simpl. left. reflexivity.
    + simpl in Hnth. rewrite get_employer_outcome.
      assert (Hrest : forall w1, requests_made w1 = S (requests_made w) ->
                In (PDict []) (fst (fst (fetch_employers net rest w1)))).
      { intros w1 Hw1. apply (IH w1 i employer_id status_code body Hnth);
          [|exact Hst].
        rewrite Hw1.
        replace (S (requests_made w) + i)%nat with (requests_made w + S i)%nat
          by lia.
        exact Hnet. }
      destruct (fst (get_employer net first (mkNet (requests_made w) [])))
        as [employer|e].
      * match goal with
        | |- context [fetch_employers _ _ ?w1] =>
            specialize (Hrest w1 eq_refl)
        end.
        destruct (fetch_employers net rest _) as [[data errors] w'].
        simpl in *. right. exact Hrest.
      * match goal with
        | |- context [fetch_employers _ _ ?w1] =>
            specialize (Hrest w1 eq_refl)
        end.
        destruct (fetch_employers net rest _) as [[data errors] w'].
        simpl in *. exact Hrest.
Qed.

(** X5. The vacancy loop of [main], which retries three times, makes at
    most four requests and sleeps at most seven seconds per identifier,
    whatever the remote side answers. *)
Theorem fetch_vacancies_cost (net : network) (employer_ids : list Z) :
  forall w : net_world,
    let '(_, w') := fetch_vacancies net employer_ids w in
    (requests_made w' <= requests_made w + 4 * List.length employer_ids)%nat /\
    total (sleeps (history w')) - total (sleeps (history w))
    <= 7 * Z.of_nat (List.length employer_ids).
Proof.
  induction employer_ids as [|employer_id rest IH]; intros w.
  - simpl. lia.
  - cbn [fetch_vacancies].
    pose proof (retry_loop_budget net employer_id 3 (range (3 + 1)) w) as Hone.
    unfold get_vacancies_with_retry.
    destruct (retry_loop net employer_id 3 (range (3 + 1)) w) as [v w1].
    change (total (sleeps (flat_map (failed_attempt employer_id 3)
                                    (range (3 + 1))))) with 7 in Hone.
    change (List.length (range (3 + 1))) with 4%nat in Hone.
    destruct (py_iter v) as [items|].
    + specialize (IH w1).
      destruct (fetch_vacancies net rest w1) as [more w2].
      simpl List.length. lia.
    + simpl List.length. lia.
Qed.

(** ** What loading never does *)

Lemma extends_refl (db : database) : extends db db.
Proof. split; exists []; rewrite app_nil_r; reflexivity. Qed.

Lemma extends_trans (a b c : database) :
  extends a b -> extends b c -> extends a c.
Proof.
  intros [[e1 He1] [v1 Hv1]] [[e2 He2] [v2 Hv2]]. split.
  - exists (e1 ++ e2). rewrite He2, He1, app_assoc. reflexivity.
  - exists (v1 ++ v2). rewrite Hv2, Hv1, app_assoc. reflexivity.
Qed.

Lemma run_statement_extends {D : Driver} (st : statement) (db db' : database) :
  run_statement st db = RowOk db' -> extends db db'.
Proof.
  destruct st as [p|p]; simpl.
  - destruct (employer_row_of p) as [r| |]; try discriminate.
    intros H. inversion H. unfold insert_employer_row.
    destruct (has_employer (e_employer_id r) (employers db));
      [apply extends_refl|].
    split; simpl; [exists [r] | exists []; rewrite app_nil_r]; reflexivity.
  - destruct (vacancy_row_of p) as [r| |]; try discriminate.
    unfold insert_vacancy_row.
    destruct (has_vacancy (v_vacancy_id r) (vacancies db)).
    + intros H. inversion H. apply extends_refl.
    + destruct (references_ok r db); [|discriminate].
      intros H. inversion H.
      split; simpl; [exists []; rewrite app_nil_r | exists [r]]; reflexivity.
Qed.

(** Any invariant of the database that single statements keep is kept by a
    run of statements and by a whole transaction. *)
Lemma run_batch_invariant {D : Driver} (P : database -> database -> Prop) :
  (forall db, P db db) ->
  (forall a b c, P a b -> P b c -> P a c) ->
  (forall st db db', run_statement st db = RowOk db' -> P db db') ->
  forall (sts : list statement) (w w' : database) (f f' : bool),
    run_batch sts w f = (w', f') -> P w w'.
Proof.
  intros Hrefl Htrans Hstep.
  induction sts as [|st rest IH]; intros w w' f f'; simpl.
  - intros H. inversion H. apply Hrefl.
  - destruct (exec_db st w f) as [w1 f1] eqn:Hst. intros Hrest.
    apply (Htrans w w1 w'); [|eapply IH; eauto].
    unfold exec_db in Hst.
    destruct (client_rejects st); [inversion Hst; apply Hrefl|].
    destruct f; [inversion Hst; apply Hrefl|].
    destruct (run_statement st w) eqn:Hrun; inversion Hst; subst;
      try apply Hrefl.
    eapply Hstep; eauto.
Qed.

Lemma batch_invariant {D : Driver} (P : database -> database -> Prop) :
  (forall db, P db db) ->
  (forall a b c, P a b -> P b c -> P a c) ->
  (forall st db db', run_statement st db = RowOk db' -> P db db') ->
  forall (sts : list statement) (db : database), P db (batch sts db).
Proof.
  intros Hrefl Htrans Hstep sts db. unfold batch.
  destruct (run_batch sts db false) as [w f] eqn:H.
  destruct f; [apply Hrefl|].
  eapply (run_batch_invariant P); eauto.
Qed.

(** X6. Loading only appends: every row stored before the load is still
    there afterwards, unchanged and at its place; no row is updated, deleted
    or moved. *)
Theorem load_only_appends {D : Driver}
  (employers_data vacancies_data : list dict) (db : database) :
  exists new_employers new_vacancies,
    load employers_data vacancies_data db
    = mkDb (employers db ++ new_employers) (vacancies db ++ new_vacancies).
Proof.
  rewrite load_batches.
  assert (H : extends db
                (batch (flat_map vacancy_statement vacancies_data)
                       (batch (map employer_statement employers_data) db))).
  { eapply extends_trans;
      apply (batch_invariant extends extends_refl extends_trans
               run_statement_extends). }
  destruct H as [[es He] [vs Hv]]. exists es, vs.
  destruct (batch _ (batch _ db)) as [e v]. simpl in *. congruence.
Qed.

(** ** The foreign key *)

Lemma references_ok_employers (v : vacancy_row) (db db' : database) :
  (forall k, has_employer k (employers db) = true ->
             has_employer k (employers db') = true) ->
  references_ok v db = true -> references_ok v db' = true.
Proof.
  unfold references_ok. destruct (v_employer_id v); auto.
Qed.

Lemma run_statement_references {D : Driver} (st : statement)
  (db db' : database) :
  run_statement st db = RowOk db' ->
  referential_integrity db -> referential_integrity db'.
Proof.
  intros Hrun Hri.
  pose proof (run_statement_grows st db db' Hrun) as [Hgrow _].
  destruct st as [p|p]; simpl in Hrun.
  - destruct (employer_row_of p) as [r| |]; try discriminate.
    inversion Hrun as [Hdb]. intros v Hin.
    apply (references_ok_employers v db); [rewrite Hdb; exact Hgrow|].
    apply Hri. revert Hin. unfold insert_employer_row.
    destruct (has_employer (e_employer_id r) (employers db)); auto.
  - destruct (vacancy_row_of p) as [r| |]; try discriminate.
    unfold insert_vacancy_row in Hrun.
    destruct (has_vacancy (v_vacancy_id r) (vacancies db)).
    + inversion Hrun. subst. exact Hri.
    + destruct (references_ok r db) eqn:Href; [|discriminate].
      inversion Hrun. intros v Hin. simpl in Hin.
      apply in_app_or in Hin as [Hin|[Heq|[]]].
      * apply (references_ok_employers v db); [auto|]. apply Hri. exact Hin.
      * subst v. apply (references_ok_employers r db); [auto|]. exact Href.
Qed.

(** X7. Loading keeps the foreign key of the schema: when every stored
    vacancy with an employer refers to a stored employer before the load, the
    same holds after it, whatever records were loaded. *)
Theorem load_keeps_references {D : Driver}
  (employers_data vacancies_data : list dict) (db : database) :
  referential_integrity db ->
  referential_integrity (load employers_data vacancies_data db).
Proof.
  intros Hri. rewrite load_batches.
  pose proof (batch_invariant
                (fun a b => referential_integrity a -> referential_integrity b)
                (fun _ H => H) (fun a b c H1 H2 H => H2 (H1 H))
                (fun st a b Hrun => run_statement_references st a b Hrun))
    as Hkeep.
  apply Hkeep. apply Hkeep. exact Hri.
Qed.

Lemma load_keeps_references_witness :
  referential_integrity
    (load (D := example_driver)
       [[("id", PInt 1); ("name", PStr "A")]]
       [[("id", PInt 10); ("name", PStr "dev");
         ("employer", PDict [("id", PInt 1)])]]
       empty_db).
Proof.
  apply load_keeps_references. intros v Hin. destruct Hin.
Defined.

(** ** Each inserting function and its table *)

Lemma vacancy_statements_are_vacancy {D : Driver} (data : list dict) :
  forallb (fun st => negb (is_employer_statement st))
          (flat_map vacancy_statement data) = true.
Proof.
  induction data as [|v rest IH]; simpl; [reflexivity|].
  rewrite forallb_app, IH, andb_true_r. unfold vacancy_statement.
  destruct (has_required_fields v); [|reflexivity].
  destruct (get_or v "employer" (PDict [])); reflexivity.
Qed.

Lemma run_batch_frame {D : Driver} (sts : list statement) :
  forall (w w' : database) (f f' : bool),
    run_batch sts w f = (w', f') ->
    (forallb is_employer_statement sts = true ->
     vacancies w' = vacancies w) /\
    (forallb (fun st => negb (is_employer_statement st)) sts = true ->
     employers w' = employers w).
Proof.
  induction sts as [|st rest IH]; intros w w' f f'; simpl.
  - intros H. inversion H. auto.
  - destruct (exec_db st w f) as [w1 f1] eqn:Hst. intros Hrest.
    destruct (IH _ _ _ _ Hrest) as (IHe & IHv).
    assert (Hone : (is_employer_statement st = true ->
                    vacancies w1 = vacancies w) /\
                   (negb (is_employer_statement st) = true ->
                    employers w1 = employers w)).
    { unfold exec_db in Hst.
      destruct (client_rejects st); [inversion Hst; auto|].
      destruct f; [inversion Hst; auto|].
      destruct (run_statement st w) eqn:Hrun; inversion Hst; subst; auto.
      destruct st as [p|p]; simpl in Hrun; split; try discriminate; intros _.
      - destruct (employer_row_of p) as [r| |]; try discriminate.
        inversion Hrun. unfold insert_employer_row.
        destruct (has_employer (e_employer_id r) (employers w)); reflexivity.
      - destruct (vacancy_row_of p) as [r| |]; try discriminate.
        unfold insert_vacancy_row in Hrun.
        destruct (has_vacancy (v_vacancy_id r) (vacancies w));
          [inversion Hrun; reflexivity|].
        destruct (references_ok r w); [|discriminate].
        inversion Hrun. reflexivity. }
    destruct Hone as (H1e & H1v). split; intros Hall;
      apply andb_true_iff in Hall as [Hthis Hothers].
    + rewrite (IHe Hothers). apply H1e. exact Hthis.
    + rewrite (IHv Hothers). apply H1v. exact Hthis.
Qed.

Lemma batch_frame {D : Driver} (sts : list statement) (db : database) :
  (forallb is_employer_statement sts = true ->
   vacancies (batch sts db) = vacancies db) /\
  (forallb (fun st => negb (is_employer_statement st)) sts = true ->
   employers (batch sts db) = employers db).
Proof.
  unfold batch. destruct (run_batch sts db false) as [w f] eqn:H.
  destruct f; [auto|]. eapply run_batch_frame; eauto.
Qed.

Lemma insert_employers_batch {D : Driver} (data : list dict) (db : database) :
  committed (insert_employers data (connect db))
  = batch (map employer_statement data) db /\
  working (insert_employers data (connect db))
  = batch (map employer_statement data) db /\
  tx_failed (insert_employers data (connect db)) = false.
Proof.
  unfold insert_employers.
  destruct (insert_employers_loop_effect data (connect db)) as (Hc & _ & Hw).
  apply commit_after_batch; assumption.
Qed.

Lemma insert_vacancies_batch {D : Driver} (data : list dict) (s : session) :
  working s = committed s -> tx_failed s = false ->
  committed (insert_vacancies data s)
  = batch (flat_map vacancy_statement data) (committed s).
Proof.
  intros Hw Hf. unfold insert_vacancies.
  destruct (insert_vacancies_loop_effect data s) as (Hc & _ & Hw').
  rewrite Hw, Hf in Hw'.
  apply (commit_after_batch _ _ _ Hc Hw').
Qed.

(** X8. [insert_employers] never changes the table of vacancies, and
    [insert_vacancies] never changes the table of employers: a vacancy
    naming an employer that is not stored does not create it. *)
Theorem inserts_keep_to_their_table {D : Driver} (data : list dict)
  (db : database) :
  vacancies (committed (insert_employers data (connect db))) = vacancies db /\
  employers (committed (insert_vacancies data (connect db))) = employers db.
Proof.
  split.
  - destruct (insert_employers_batch data db) as (Hc & _). rewrite Hc.
    apply batch_frame. apply employer_statements_are_employer.
  - rewrite (insert_vacancies_batch data (connect db) eq_refl eq_refl).
    apply batch_frame. apply vacancy_statements_are_vacancy.
Qed.



(** A record that gives rise to no statement can be taken out of a batch of
    vacancies without changing what the batch executes and stores. *)
Lemma silent_vacancy_can_be_removed {D : Driver} (vacancy : dict) :
  vacancy_statement vacancy = [] ->
  forall before after s,
    executed (insert_vacancies (before ++ vacancy :: after) s)
    = executed (insert_vacancies (before ++ after) s) /\
    committed (insert_vacancies (before ++ vacancy :: after) s)
    = committed (insert_vacancies (before ++ after) s).
Proof.
  intros Hst before after s. unfold insert_vacancies.
  destruct (insert_vacancies_loop_effect (before ++ vacancy :: after) s)
    as (Hc1 & He1 & Hw1).
  destruct (insert_vacancies_loop_effect (before ++ after) s)
    as (Hc2 & He2 & Hw2).
  assert (Hflat : flat_map vacancy_statement (before ++ vacancy :: after)
                  = flat_map vacancy_statement (before ++ after)).
  { rewrite !flat_map_app. simpl. rewrite Hst. reflexivity. }
  rewrite Hflat in He1, Hw1. rewrite <- Hw2 in Hw1. inversion Hw1.
  destruct (commit_fields (insert_vacancies_loop (before ++ vacancy :: after) s)
              (insert_vacancies_loop (before ++ after) s))
    as (Hcc & _ & _ & Hee); try congruence.
  split; assumption.
Qed.

(** X10. A vacancy record with the three required keys whose [employer] is
    not a dictionary fails before any statement is sent: the failure is
    logged, the transaction is not aborted, and the batch executes and stores
    exactly what it would without the record. *)
Theorem non_dict_employer_is_harmless {D : Driver} (vacancy : dict)
  (employer : pyval) :
  has_required_fields vacancy = true ->
  dict_get vacancy "employer" = Some employer ->
  isinstance_dict employer = false ->
  (forall s,
     insert_vacancy vacancy s
     = logging (ErrInsertVacancy (get_or vacancy "id" (PStr "N/A"))) s) /\
  (forall before after s,
     executed (insert_vacancies (before ++ vacancy :: after) s)
     = executed (insert_vacancies (before ++ after) s) /\
     committed (insert_vacancies (before ++ vacancy :: after) s)
     = committed (insert_vacancies (before ++ after) s)).
Proof.
  intros Hv Hget Hnd. split.
  - intros s. unfold insert_vacancy, validate_data.
    rewrite (check_fields_true _ _ _ Hv). unfold try_insert_vacancy.
    replace (get_or vacancy "employer" (PDict [])) with employer
      by (unfold get_or; rewrite Hget; reflexivity).
    destruct employer; simpl in Hnd; try discriminate; reflexivity.
  - apply silent_vacancy_can_be_removed. unfold vacancy_statement.
    rewrite Hv.
    replace (get_or vacancy "employer" (PDict [])) with employer
      by (unfold get_or; rewrite Hget; reflexivity).
    destruct employer; simpl in Hnd; try discriminate; reflexivity.
Qed.

Lemma non_dict_employer_is_harmless_witness :
  let odd := [("id", PInt 2); ("name", PStr "b"); ("employer", PNone)] in
  let good := [("id", PInt 3); ("name", PStr "c"); ("employer", PDict [])] in
  committed (insert_vacancies (D := example_driver) ([] ++ odd :: [good])
               (connect empty_db))
  = committed (insert_vacancies (D := example_driver) ([] ++ [good])
                 (connect empty_db)).
Proof.
  cbv zeta.
  destruct (non_dict_employer_is_harmless (D := example_driver)
              [("id", PInt 2); ("name", PStr "b"); ("employer", PNone)]
              PNone eq_refl eq_refl eq_refl) as (_ & H).
  apply H.
Defined.

(** ** Aborted transactions *)

Lemma run_batch_aborted {D : Driver} (sts : list statement) (w : database) :
  run_batch sts w true = (w, true).
Proof.
  induction sts as [|st rest IH]; simpl; [reflexivity|].
  unfold exec_db. destruct (client_rejects st); exact IH.
Qed.

(** X11. A vacancy that names an employer which is not stored does not only
    fail itself: when it heads a batch (well-formed row, new [vacancy_id]),
    its foreign-key violation aborts the transaction and nothing of the
    batch is stored. *)
Theorem dangling_employer_loses_batch {D : Driver}
  (vacancy employer : dict) (r : vacancy_row) (rest : list dict)
  (db : database) :
  has_required_fields vacancy = true ->
  dict_get vacancy "employer" = Some (PDict employer) ->
  vacancy_row_of (vacancy_insert_params vacancy employer) = RowOk r ->
  has_vacancy (v_vacancy_id r) (vacancies db) = false ->
  references_ok r db = false ->
  committed (insert_vacancies (vacancy :: rest) (connect db)) = db.
Proof.
  intros Hv Hget Hrow Hfresh Href.
  rewrite (insert_vacancies_batch _ (connect db) eq_refl eq_refl).
  unfold batch. simpl flat_map. simpl committed.
  assert (Hst : vacancy_statement vacancy
                = [InsertVacancy (vacancy_insert_params vacancy employer)]).
  { unfold vacancy_statement, get_or. rewrite Hv, Hget. reflexivity. }
  rewrite Hst. cbn [app run_batch].
  unfold exec_db, client_rejects, run_statement. rewrite Hrow.
  unfold insert_vacancy_row. rewrite Hfresh, Href.
  rewrite run_batch_aborted. reflexivity.
Qed.

Lemma dangling_employer_loses_batch_witness :
  committed (insert_vacancies (D := example_driver)
               [[("id", PInt 10); ("name", PStr "dev");
                 ("employer", PDict [("id", PInt 99)])];
                [("id", PInt 11); ("name", PStr "ops");
                 ("employer", PDict [])]]
               (connect empty_db))
  = empty_db.
Proof.
  apply (dangling_employer_loses_batch (D := example_driver)
           [("id", PInt 10); ("name", PStr "dev");
            ("employer", PDict [("id", PInt 99)])]
           [("id", PInt 99)]
           (mkVacancy 10 "dev" None None None (Some 99) (Some "")));
    reflexivity.
Defined.

(** ** One unsuccessful employer request in [main] *)

Lemma dict_prefix_all (records : list pyval) :
  snd (dict_prefix records) = true ->
  forall d, In (PDict d) records -> In d (fst (dict_prefix records)).
Proof.
  induction records as [|v rest IH]; simpl; [tauto|].
  destruct v; simpl; try discriminate.
  destruct (dict_prefix rest) as [ds all]. simpl in *.
  intros Hall d [Heq|Hin]; [left; congruence | right; auto].
Qed.

Lemma commit_idle (s : session) :
  working s = committed s -> tx_failed s = false ->
  committed (commit s) = committed s.
Proof. intros Hw Hf. unfold commit. rewrite Hf. simpl. exact Hw. Qed.

Lemma main_load_employers {D : Driver} (employers_data vacancies_data : list pyval)
  (db : database) :
  employers (fst (main_load employers_data vacancies_data db))
  = employers db \/
  (snd (dict_prefix employers_data) = true /\
   employers (fst (main_load employers_data vacancies_data db))
   = employers (committed (insert_employers (fst (dict_prefix employers_data))
                             (connect db)))).
Proof.
  unfold main_load.
  destruct (dict_prefix employers_data) as [es all_e]. destruct all_e.
  - right. split; [reflexivity|]. simpl fst.
    destruct (insert_employers_batch es db) as (Hc & Hw & Hf).
    set (s1 := insert_employers es (connect db)) in *.
    assert (Hidle : working s1 = committed s1) by congruence.
    destruct (dict_prefix vacancies_data) as [vs all_v]. destruct all_v.
    + simpl fst.
      destruct (insert_vacancies_loop_effect vs s1) as (Hc3 & _ & Hw3).
      rewrite Hidle, Hf in Hw3.
      destruct (commit_after_batch _ _ _ Hc3 Hw3) as (Hc4 & Hw4 & Hf4).
      fold (insert_vacancies vs s1) in Hc4, Hw4, Hf4.
      rewrite commit_idle by congruence. rewrite Hc4.
      apply batch_frame. apply vacancy_statements_are_vacancy.
    + simpl.
      destruct (insert_vacancies_loop_effect vs s1) as (Hc3 & _).
      rewrite Hc3. reflexivity.
  - left. simpl.
    destruct (insert_employers_loop_effect es (connect db)) as (Hc & _).
    rewrite Hc. reflexivity.
Qed.

(** X12. If one of the employer requests of [main] is answered with a status
    other than 200, the run stores no employer at all: the empty dictionary
    that [get_employer] returns for it is inserted with a [NULL] id, which
    aborts the transaction of all employers.  (For a driver that sends the
    empty dictionary's parameters to the server.) *)
Theorem unsuccessful_employer_request_stores_no_employer {D : Driver}
  (net : network) (employer_ids : list Z) (db : database)
  (i : nat) (employer_id status_code : Z) (body : option pyval) :
  nth_error employer_ids i = Some employer_id ->
  net i (GetEmployer employer_id) = Response status_code body ->
  status_code <> 200 ->
  client_rejects (employer_statement []) = false ->
  employers (fst (main_ingest net employer_ids db)) = employers db.
Proof.
  intros Hnth Hnet Hst Hsent. unfold main_ingest.
  pose proof (fetch_employers_non_success net employer_ids net_start i
                employer_id status_code body Hnth Hnet Hst) as Hempty.
  destruct (fetch_employers net employer_ids net_start)
    as [[employers_data errors] w1].
  simpl in Hempty.
  destruct (fetch_vacancies net employer_ids w1) as [[vacancies_data|] w2];
    [|reflexivity].
  destruct (main_load_employers employers_data vacancies_data db)
    as [Hsame|(Hall & Heq)]; [exact Hsame|].
  rewrite Heq. f_equal. apply ill_formed_employer_loses_batch.
  apply existsb_exists. exists (employer_statement []). split.
  - apply in_map. apply dict_prefix_all; assumption.
  - pose proof (employer_without_id_fails [] eq_refl) as H.
    rewrite Hsent, orb_false_r in H. exact H.
Qed.

Lemma unsuccessful_employer_request_stores_no_employer_witness :
  let net : network :=
    fun n r =>
      match r with
      | GetEmployer 1 =>
          Response 200 (Some (PDict [("id", PInt 1); ("name", PStr "A")]))
      | GetEmployer _ => Response 404 None
      | GetVacancies _ => Response 200 (Some (PDict [("items", PList [])]))
      end in
  employers (fst (main_ingest (D := example_driver) net [1; 2] empty_db)) = [].
Proof.
  cbv zeta.
  apply (unsuccessful_employer_request_stores_no_employer
           (D := example_driver) _ [1; 2] empty_db 1%nat 2 404 None);
    [reflexivity | reflexivity | discriminate | reflexivity].
Defined.

(** ** More on the salary reports *)

Lemma minimum_exists (ms : list Z) :
  ms <> [] -> exists m, In m ms /\ forall x, In x ms -> m <= x.
Proof.
  induction ms as [|a ms IH]; [congruence|]. intros _.
  destruct ms as [|b ms].
  - exists a. split; [left; reflexivity|]. intros x [<-|[]]. lia.
  - destruct (IH ltac:(discriminate)) as (m & Hin & Hmin).
    destruct (Z.le_ge_cases a m) as [Ham|Hma].
    + exists a. split; [left; reflexivity|].
      intros x [<-|Hx]; [lia|]. specialize (Hmin x Hx). lia.
    + exists m. split; [right; exact Hin|].
      intros x [<-|Hx]; [lia | auto].
Qed.

Lemma maximum_exists (ms : list Z) :
  ms <> [] -> exists m, In m ms /\ forall x, In x ms -> x <= m.
Proof.
  induction ms as [|a ms IH]; [congruence|]. intros _.
  destruct ms as [|b ms].
  - exists a. split; [left; reflexivity|]. intros x [<-|[]]. lia.
  - destruct (IH ltac:(discriminate)) as (m & Hin & Hmax).
    destruct (Z.le_ge_cases a m) as [Ham|Hma].
    + exists m. split; [right; exact Hin|].
      intros x [<-|Hx]; [lia | auto].
    + exists a. split; [left; reflexivity|].
      intros x [<-|Hx]; [lia|]. specialize (Hmax x Hx). lia.
Qed.

Lemma total_lower_bound (m : Z) (ms : list Z) :
  (forall x, In x ms -> m <= x) -> m * Z.of_nat (List.length ms) <= total ms.
Proof.
  induction ms as [|a ms IH]; intros H; [simpl; lia|].
  assert (m <= a) by (apply H; left; reflexivity).
  assert (m * Z.of_nat (List.length ms) <= total ms)
    by (apply IH; intros x Hx; apply H; right; exact Hx).
  simpl total. rewrite length_cons, Nat2Z.inj_succ. lia.
Qed.

Lemma total_upper_bound (m : Z) (ms : list Z) :
  (forall x, In x ms -> x <= m) -> total ms <= m * Z.of_nat (List.length ms).
Proof.
  induction ms as [|a ms IH]; intros H; [simpl; lia|].
  assert (a <= m) by (apply H; left; reflexivity).
  assert (total ms <= m * Z.of_nat (List.length ms))
    by (apply IH; intros x Hx; apply H; right; exact Hx).
  simpl total. rewrite length_cons, Nat2Z.inj_succ. lia.
Qed.

(** What [get_avg_salary] returns when it returns a number. *)
Lemma avg_salary_value (db : database) (r : Z) :
  get_avg_salary db = Some [Some r] ->
  int_midpoints db <> [] /\
  r = sql_round (Qmake (total (int_midpoints db))
                       (Pos.of_nat (List.length (int_midpoints db)))).
Proof.
  unfold get_avg_salary. rewrite aggregate_input_filtered.
  fold (int_midpoints db).
  destruct (forallb sum_fits (vacancies db)); [|discriminate].
  destruct (int_midpoints db) as [|m ms] eqn:Hms; [discriminate|].
  intros H. split; [discriminate|].
  destruct (sql_avg_nonempty (m :: ms) ltac:(discriminate)) as (Havg & _).
  rewrite Havg in H. cbn [option_map] in H. injection H as H.
  symmetry. exact H.
Qed.

(** X13. The average salary reported lies between the lowest and the
    highest integer midpoint of the vacancies with both bounds. *)
Theorem average_salary_within_range (db : database) (r : Z) :
  get_avg_salary db = Some [Some r] ->
  (exists lowest, In lowest (int_midpoints db) /\ lowest <= r) /\
  (exists highest, In highest (int_midpoints db) /\ r <= highest).
Proof.
  intros H. destruct (avg_salary_value db r H) as (Hne & Hr).
  set (ms := int_midpoints db) in *.
  destruct (sql_avg_nonempty ms Hne) as (_ & Hden).
  pose proof (sql_round_nearest (total ms) (Pos.of_nat (List.length ms)))
    as Hround.
  cbv zeta in Hround. rewrite <- Hr, Hden in Hround.
  assert (HN : 0 < Z.of_nat (List.length ms)).
  { destruct ms; [congruence | simpl; lia]. }
  destruct Hround as (Hpos & Hneg).
  split.
  - destruct (minimum_exists ms Hne) as (lo & Hin & Hmin).
    exists lo. split; [exact Hin|].
    pose proof (total_lower_bound lo ms Hmin) as Hlow.
    destruct (Z.le_gt_cases 0 (total ms)) as [Hs|Hs];
      [specialize (Hpos Hs) | specialize (Hneg Hs)]; nia.
  - destruct (maximum_exists ms Hne) as (hi & Hin & Hmax).
    exists hi. split; [exact Hin|].
    pose proof (total_upper_bound hi ms Hmax) as Hup.
    destruct (Z.le_gt_cases 0 (total ms)) as [Hs|Hs];
      [specialize (Hpos Hs) | specialize (Hneg Hs)]; nia.
Qed.

Lemma average_salary_within_range_witness :
  (exists lowest,
     In lowest
        (int_midpoints
           (mkDb [] [mkVacancy 1 "a" (Some 100) (Some 200) None None None;
                     mkVacancy 2 "b" (Some 300) (Some 300) None None None]))
     /\ lowest <= 225).
Proof.
  apply (average_salary_within_range
           (mkDb [] [mkVacancy 1 "a" (Some 100) (Some 200) None None None;
                     mkVacancy 2 "b" (Some 300) (Some 300) None None None])
           225 eq_refl).
Defined.





(** ** What a keyword matches *)













(** ** The company report *)

Lemma distinct_In (x : string) (l : list string) :
  In x (distinct l) <-> In x l.
Proof.
  induction l as [|a l IH]; simpl; [tauto|].
  rewrite filter_In, IH. split.
  - intros [H|[H _]]; auto.
  - intros [H|H]; [left; exact H|].
    destruct (String.eqb_spec a x) as [Heq|Hne]; [left; exact Heq|].
    right. split; [exact H | reflexivity].
Qed.

Lemma NoDup_filter {A : Type} (f : A -> bool) (l : list A) :
  NoDup l -> NoDup (filter f l).
Proof.
  induction 1 as [|a l Hnot Hnd IH]; simpl; [constructor|].
  destruct (f a); [|exact IH].
  constructor; [|exact IH]. intros Hin. apply filter_In in Hin. tauto.
Qed.

Lemma NoDup_distinct (l : list string) : NoDup (distinct l).
Proof.
  induction l as [|a l IH]; simpl; constructor.
  - intros Hin. apply filter_In in Hin as [_ Hne].
    rewrite String.eqb_refl in Hne. discriminate.
  - apply NoDup_filter. exact IH.
Qed.

Lemma count_joined_rows (db : database) (name : string) (e : employer_row) :
  count_joined name (joined_rows db e)
  = if String.eqb (e_name e) name
    then List.length (vacancies_of e db) else 0%nat.
Proof.
  unfold count_joined, joined_rows.
  assert (Hmap : forall l : list vacancy_row,
            List.length
              (filter (fun row => String.eqb (e_name (fst row)) name
                                  && match snd row with
                                     | Some _ => true
                                     | None => false
                                     end)
                      (map (fun v => (e, Some v)) l))
            = if String.eqb (e_name e) name then List.length l else 0%nat).
  { induction l as [|x l IH]; simpl.
    - destruct (String.eqb (e_name e) name); reflexivity.
    - destruct (String.eqb (e_name e) name); simpl in *;
        [rewrite IH; reflexivity | exact IH]. }
  destruct (vacancies_of e db) as [|v vs]; [|apply Hmap].
  simpl. rewrite andb_false_r. destruct (String.eqb (e_name e) name);
    reflexivity.
Qed.

Lemma count_joined_app (name : string)
  (a b : list (employer_row * option vacancy_row)) :
  count_joined name (a ++ b)
  = (count_joined name a + count_joined name b)%nat.
Proof. unfold count_joined. rewrite filter_app, length_app. reflexivity. Qed.

Lemma count_joined_employers (db : database) (name : string)
  (es : list employer_row) :
  count_joined name (flat_map (joined_rows db) es)
  = List.length
      (flat_map (fun e => vacancies_of e db)
                (filter (fun e => String.eqb (e_name e) name) es)).
Proof.
  induction es as [|e es IH]; [reflexivity|].
  cbn [flat_map filter]. rewrite count_joined_app, count_joined_rows, IH.
  destruct (String.eqb (e_name e) name); [|reflexivity].
  cbn [flat_map]. rewrite length_app. reflexivity.
Qed.

Lemma joined_rows_name (db : database) (e : employer_row) :
  In (e_name e) (map (fun row => e_name (fst row)) (joined_rows db e)).
Proof.
  unfold joined_rows. destruct (vacancies_of e db); simpl; auto.
Qed.

Lemma joined_rows_names (db : database) (e : employer_row) (name : string) :
  In name (map (fun row => e_name (fst row)) (joined_rows db e)) ->
  name = e_name e.
Proof.
  unfold joined_rows. destruct (vacancies_of e db) as [|v vs].
  - simpl. intros [H|[]]. auto.
  - generalize (v :: vs). intros l Hin. rewrite map_map in Hin.
    apply in_map_iff in Hin as (x & Hx & _). symmetry. exact Hx.
Qed.

Lemma left_join_names (db : database) (name : string) :
  In name (map (fun row => e_name (fst row)) (left_join db)) <->
  exists e, In e (employers db) /\ e_name e = name.
Proof.
  unfold left_join. fold (joined_rows db).
  induction (employers db) as [|e es IH]; simpl.
  - split; [tauto | intros (e & [] & _)].
  - rewrite map_app, in_app_iff, IH. split.
    + intros [H|(e' & Hin & Hn)].
      * exists e. split; [left; reflexivity|].
        symmetry. eapply joined_rows_names; eauto.
      * exists e'. auto.
    + intros (e' & [<-|Hin] & <-).
      * left. apply joined_rows_name.
      * right. exists e'. auto.
Qed.

(** X17. In the company report each employer's name comes with the number
    of vacancies that refer to an employer of that name; an employer to
    which no vacancy refers is listed with 0, not left out. *)
Theorem company_report_counts (db : database) (e : employer_row) :
  In e (employers db) ->
  In (e_name e,
      List.length
        (flat_map (fun e' => vacancies_of e' db)
                  (filter (fun e' => String.eqb (e_name e') (e_name e))
                          (employers db))))
     (get_companies_and_vacancies_count db).
Proof.
  intros Hin. unfold get_companies_and_vacancies_count.
  apply in_map_iff. exists (e_name e). split.
  - f_equal. unfold left_join. fold (joined_rows db).
    apply count_joined_employers.
  - apply distinct_In. apply left_join_names. exists e. auto.
Qed.

Lemma company_report_counts_witness :
  In ("Idle", 0%nat)
     (get_companies_and_vacancies_count
        (mkDb [mkEmployer 1 "Busy" None; mkEmployer 2 "Idle" None]
              [mkVacancy 10 "dev" None None None (Some 1) None])).
Proof.
  apply (company_report_counts
           (mkDb [mkEmployer 1 "Busy" None; mkEmployer 2 "Idle" None]
                 [mkVacancy 10 "dev" None None None (Some 1) None])
           (mkEmployer 2 "Idle" None)).
  right. left. reflexivity.
Defined.

(** X18. The company report has exactly one row per employer name: its
    names are the names of the stored employers, each once, so employers
    that share a name share one row and one count. *)
Theorem company_report_one_row_per_name (db : database) :
  NoDup (map fst (get_companies_and_vacancies_count db)) /\
  forall name,
    In name (map fst (get_companies_and_vacancies_count db)) <->
    exists e, In e (employers db) /\ e_name e = name.
Proof.
  unfold get_companies_and_vacancies_count. rewrite map_map. simpl.
  rewrite map_id. split; [apply NoDup_distinct|].
  intros name. rewrite distinct_In. apply left_join_names.
Qed.

(** ** The two join reports agree *)

Lemma list_sum_map_add {A : Type} (f g : A -> nat) (l : list A) :
  list_sum (map (fun x => f x + g x)%nat l)
  = (list_sum (map f l) + list_sum (map g l))%nat.
Proof. induction l as [|a l IH]; simpl; [reflexivity | rewrite IH; lia]. Qed.

Lemma list_sum_indicator (x : string) (ns : list string) :
  NoDup ns -> In x ns ->
  list_sum (map (fun n => if String.eqb x n then 1 else 0)%nat ns) = 1%nat.
Proof.
  induction 1 as [|a ns Hnot Hnd IH]; intros Hin; [destruct Hin|].
  simpl. destruct (String.eqb_spec x a) as [->|Hne].
  - assert (Hzero : list_sum (map (fun n => if String.eqb a n then 1 else 0)%nat
                                  ns) = 0%nat).
    { clear IH Hnd Hin. induction ns as [|b ns IHn]; simpl; [reflexivity|].
      destruct (String.eqb_spec a b) as [->|_].
      - exfalso. apply Hnot. left. reflexivity.
      - apply IHn. intros H. apply Hnot. right. exact H. }
    rewrite Hzero. reflexivity.
  - destruct Hin as [Heq|Hin]; [congruence|]. apply IH. exact Hin.
Qed.

(** Summing the counts of the groups counts every joined row that has a
    vacancy once. *)
Lemma counts_add_up (ns : list string)
  (rows : list (employer_row * option vacancy_row)) :
  NoDup ns ->
  (forall row, In row rows -> In (e_name (fst row)) ns) ->
  list_sum (map (fun name => count_joined name rows) ns)
  = List.length (filter with_vacancy rows).
Proof.
  intros Hnd. induction rows as [|row rows IH]; intros Hall.
  - unfold count_joined. simpl. clear Hnd Hall.
    induction ns as [|a ns IHn]; simpl; [reflexivity | exact IHn].
  - assert (Hsplit : forall name,
              count_joined name (row :: rows)
              = ((if String.eqb (e_name (fst row)) name
                  then (if with_vacancy row then 1 else 0) else 0)
                 + count_joined name rows)%nat).
    { intros name. unfold count_joined, with_vacancy. simpl.
      destruct (String.eqb (e_name (fst row)) name);
        destruct (snd row); reflexivity. }
    rewrite (map_ext _ _ Hsplit), list_sum_map_add, IH
      by (intros r Hr; apply Hall; right; exact Hr).
    simpl filter. destruct (with_vacancy row).
    + rewrite list_sum_indicator;
        [reflexivity | exact Hnd | apply Hall; left; reflexivity].
    + assert (Hzero : list_sum
                        (map (fun name : string =>
                                if String.eqb (e_name (fst row)) name
                                then 0 else 0)%nat ns) = 0%nat).
      { clear. induction ns as [|a ns IHn]; simpl; [reflexivity|].
        destruct (String.eqb (e_name (fst row)) a); exact IHn. }
      rewrite Hzero. reflexivity.
Qed.

Lemma joined_rows_with_vacancy (db : database) (e : employer_row) :
  List.length (filter with_vacancy (joined_rows db e))
  = List.length (vacancies_of e db).
Proof.
  unfold joined_rows. destruct (vacancies_of e db) as [|v vs]; [reflexivity|].
  generalize (v :: vs). intros l.
  induction l as [|x l IH]; simpl; [reflexivity | rewrite IH; reflexivity].
Qed.

(** Counting the matching pairs employer by employer or vacancy by vacancy
    gives the same number. *)
Lemma matching_pairs {A B : Type} (p : A -> B -> bool) (xs : list A)
  (ys : list B) :
  list_sum (map (fun x => List.length (filter (p x) ys)) xs)
  = list_sum (map (fun y => List.length (filter (fun x => p x y) xs)) ys).
Proof.
  induction xs as [|x xs IH]; simpl.
  - induction ys as [|y ys IHy]; simpl; auto.
  - rewrite IH. clear IH. induction ys as [|y ys IHy]; simpl; [reflexivity|].
    destruct (p x y); simpl; rewrite <- IHy; lia.
Qed.

(** X19. The counts of the company report add up to the number of lines of
    the report of all vacancies: both count the pairs of an employer and a
    vacancy that refers to it. *)
Theorem company_counts_add_up_to_all_vacancies (db : database) :
  list_sum (map snd (get_companies_and_vacancies_count db))
  = List.length (get_all_vacancies db).
Proof.
  unfold get_companies_and_vacancies_count. rewrite map_map. simpl.
  rewrite counts_add_up.
  - unfold left_join, get_all_vacancies. fold (joined_rows db).
    rewrite !length_flat_map.
    transitivity
      (list_sum (map (fun e => List.length (filter (employs e) (vacancies db)))
                     (employers db))).
    + induction (employers db) as [|e es IH]; [reflexivity|].
      cbn [flat_map map list_sum fold_right].
      rewrite filter_app, length_app, joined_rows_with_vacancy, IH.
      reflexivity.
    + rewrite (matching_pairs employs). f_equal. apply map_ext.
      intros v. rewrite length_map. reflexivity.
  - apply NoDup_distinct.
  - intros row Hin. apply distinct_In.
    apply (in_map (fun r : employer_row * option vacancy_row =>
                     e_name (fst r))).
    exact Hin.
Qed.

(** ** The report of all vacancies on a consistent database *)

Lemma employs_same_employer (e e' : employer_row) (v : vacancy_row) :
  employs e v = true -> employs e' v = true ->
  e_employer_id e = e_employer_id e'.
Proof.
  unfold employs. destruct (v_employer_id v) as [k|]; [|discriminate].
  intros H1 H2. apply Z.eqb_eq in H1, H2. congruence.
Qed.

Lemma no_other_employer (e : employer_row) (es : list employer_row)
  (v : vacancy_row) :
  ~ In (e_employer_id e) (map e_employer_id es) ->
  employs e v = true ->
  filter (fun e' => employs e' v) es = [].
Proof.
  intros Hnot He. induction es as [|e' es IH]; [reflexivity|].
  simpl. destruct (employs e' v) eqn:He'.
  - exfalso. apply Hnot. left. symmetry.
    eapply employs_same_employer; eauto.
  - apply IH. intros H. apply Hnot. right. exact H.
Qed.

Lemma filter_unique_employer (es : list employer_row) (v : vacancy_row) :
  NoDup (map e_employer_id es) ->
  filter (fun e => employs e v) es
  = match find (fun e => employs e v) es with
    | Some e => [e]
    | None => []
    end.
Proof.
  induction es as [|e es IH]; intros Hnd; [reflexivity|].
  simpl in Hnd. inversion Hnd as [|x l Hnot Hnd']. subst. simpl.
  destruct (employs e v) eqn:He; [|apply IH; exact Hnd'].
  rewrite (no_other_employer e es v Hnot He). reflexivity.
Qed.

Lemma referenced_employer_found (es : list employer_row) (v : vacancy_row)
  (k : Z) :
  v_employer_id v = Some k -> has_employer k es = true ->
  find (fun e => employs e v) es <> None.
Proof.
  intros Hk Hhas Hnone. unfold has_employer in Hhas.
  apply existsb_exists in Hhas as (e & Hin & He).
  pose proof (find_none _ _ Hnone e Hin) as Hno. simpl in Hno.
  unfold employs in Hno. rewrite Hk in Hno.
  rewrite Z.eqb_sym in Hno. congruence.
Qed.

Lemma no_employer_for_null (es : list employer_row) (v : vacancy_row) :
  v_employer_id v = None -> filter (fun e => employs e v) es = [].
Proof.
  intros Hnull. induction es as [|e es IH]; [reflexivity|].
  simpl. unfold employs at 1. rewrite Hnull. exact IH.
Qed.

Lemma listing_of_vacancies (db : database) (vs : list vacancy_row) :
  NoDup (map e_employer_id (employers db)) ->
  (forall v, In v vs -> references_ok v db = true) ->
  flat_map (fun v =>
              map (fun e => (e_name e, v_title v, v_salary_from v,
                             v_salary_to v, v_currency v, v_url v))
                  (filter (fun e => employs e v) (employers db)))
           vs
  = map (fun v => (employer_name_of v db, v_title v, v_salary_from v,
                   v_salary_to v, v_currency v, v_url v))
        (filter has_employer_reference vs).
Proof.
  intros Hunique. induction vs as [|v vs IH]; intros Hri; [reflexivity|].
  cbn [flat_map filter].
  rewrite IH by (intros v' Hin; apply Hri; right; exact Hin).
  specialize (Hri v (or_introl eq_refl)).
  unfold references_ok in Hri.
  destruct (v_employer_id v) as [k|] eqn:Hk.
  - assert (Href : has_employer_reference v = true)
      by (unfold has_employer_reference; rewrite Hk; reflexivity).
    rewrite Href, (filter_unique_employer _ v Hunique).
    pose proof (referenced_employer_found _ v k Hk Hri) as Hfound.
    cbn [map]. unfold employer_name_of.
    destruct (find (fun e => employs e v) (employers db)) as [e|];
      [reflexivity | congruence].
  - assert (Href : has_employer_reference v = false)
      by (unfold has_employer_reference; rewrite Hk; reflexivity).
    rewrite Href, (no_employer_for_null _ v Hk). reflexivity.
Qed.

(** X20. On a database whose unique keys and foreign key hold (as they do
    after any number of loads into empty tables), the report of all
    vacancies lists every vacancy that has an employer exactly once, with
    the name of that employer; a vacancy without employer is not listed.
    (The query fixes no order; the rows are given vacancy by vacancy.) *)
Theorem all_vacancies_lists_each_once (db : database) :
  unique_keys db ->
  referential_integrity db ->
  get_all_vacancies db
  = map (fun v => (employer_name_of v db, v_title v, v_salary_from v,
                   v_salary_to v, v_currency v, v_url v))
        (filter has_employer_reference (vacancies db)).
Proof.
  intros [Hunique _] Hri. unfold get_all_vacancies.
  apply listing_of_vacancies; assumption.
Qed.

Lemma all_vacancies_lists_each_once_witness :
  get_all_vacancies
    (mkDb [mkEmployer 1 "A" None]
          [mkVacancy 10 "dev" None None None (Some 1) None;
           mkVacancy 11 "ops" None None None None None])
  = [("A"%string, "dev"%string, None, None, None, None)].
Proof.
  rewrite all_vacancies_lists_each_once.
  - reflexivity.
  - split; simpl; repeat constructor; simpl; intuition discriminate.
  - intros v [<-|[<-|[]]]; reflexivity.
Defined.

(** ** The menu *)

Lemma avg_salary_has_a_row (db : database) :
  get_avg_salary db <> Some [].
Proof.
  unfold get_avg_salary.
  destruct (aggregate_input _); discriminate.
Qed.

Lemma no_message_in_map {A : Type} (f : A -> ui_output) (l : list A) :
  (forall a, f a <> ShowNoSalaryData) -> ~ In ShowNoSalaryData (map f l).
Proof.
  intros Hf Hin. apply in_map_iff in Hin as (a & Ha & _). exact (Hf a Ha).
Qed.

Lemma user_interface_no_message (n : nat) :
  forall (inputs : list string) (db : database),
    (List.length inputs <= n)%nat ->
    ~ In ShowNoSalaryData (user_interface inputs db).
Proof.
  induction n as [|n IH]; intros inputs db Hlen.
  - destruct inputs; [|simpl in Hlen; lia].
    simpl. intros [H|[H|[]]]; discriminate.
  - destruct inputs as [|choice rest].
    + simpl. intros [H|[H|[]]]; discriminate.
    + simpl in Hlen. cbn [user_interface].
      assert (Hrest : ~ In ShowNoSalaryData (user_interface rest db))
        by (apply IH; lia).
      intros [H|Hin]; [discriminate|]. revert Hin.
      destruct (String.eqb choice "1");
        [rewrite in_app_iff; intros [H|H];
         [revert H; apply no_message_in_map; discriminate | auto]|].
      destruct (String.eqb choice "2");
        [rewrite in_app_iff; intros [H|H];
         [revert H; apply no_message_in_map; discriminate | auto]|].
      destruct (String.eqb choice "3").
      { rewrite in_app_iff. intros [H|H]; [|auto].
        unfold show_avg_salary in H.
        pose proof (avg_salary_has_a_row db) as Hrow.
        destruct (get_avg_salary db) as [[|value rows]|];
          [congruence | |]; destruct H as [H|[]]; discriminate. }
      destruct (String.eqb choice "4").
      { rewrite in_app_iff. intros [H|H]; [|auto].
        unfold show_higher_salary in H.
        destruct (get_vacancies_with_higher_salary db).
        - revert H. apply no_message_in_map. discriminate.
        - destruct H as [H|[]]. discriminate. }
      destruct (String.eqb choice "5").
      { destruct rest as [|keyword rest'].
        - intros [H|[H|[H|[]]]]; discriminate.
        - rewrite in_app_iff. intros [H|H].
          + revert H. apply no_message_in_map. discriminate.
          + revert H. apply IH. simpl in Hlen. lia. }
      destruct (String.eqb choice "0"); [intros []|].
      intros [H|H]; [discriminate | auto].
Qed.

(** X21. Whatever the operator types and whatever is stored, the menu never
    prints "Данные о зарплатах отсутствуют": the average query always
    returns one row, so choice 3 prints an average, [None] when no vacancy
    has both bounds, or reports a failure. *)
Theorem no_salary_message_is_never_shown (inputs : list string)
  (db : database) :
  ~ In ShowNoSalaryData (user_interface inputs db) /\
  (get_avg_salary db = Some [None] ->
   user_interface ["3"%string; "0"%string] db
   = [ShowMenu; ShowAverageSalary None; ShowMenu]).
Proof.
  split.
  - apply (user_interface_no_message (List.length inputs)). lia.
  - intros H. cbn. unfold show_avg_salary. rewrite H. reflexivity.
Qed.

Lemma no_salary_message_is_never_shown_witness :
  user_interface ["3"%string; "0"%string] empty_db
  = [ShowMenu; ShowAverageSalary None; ShowMenu].
Proof.
  apply (proj2 (no_salary_message_is_never_shown [] empty_db)).
  reflexivity.
Defined.
